(** * Movie backend (Backend/server.js): fallback query logic

    A shallow embedding of the request handlers of [Backend/server.js] and
    of the JavaScript primitives they rely on, followed by the properties of
    the catalogue operations (List, GetById, Create, Trending,
    RecommendationsFor, DistinctGenres), of the start-up step
    [initDatabase] and of the key function of the uploads.

    Conventions of the embedding:
    - a JavaScript string is a [string] of ASCII characters;
    - an integer-valued JavaScript number is a [Z] (exact below 2^53), the
      result of [parseInt] is a [JsInt] ([NaN] or an integer);
    - the decimal literals of the seed ratings are rationals ([4.8] is
      [48 # 10]); the sign of a difference of two such ratings is the sign
      of the difference of the doubles;
    - the process state is a [World]: the module-level array [movies]
      (which [Array.prototype.sort] updates in place) and the MySQL store
      behind [executeQuery]. *)

From Stdlib Require Import String Ascii ZArith QArith List Bool.
From Stdlib Require Import Permutation Sorted Lia Lqa.
From Stdlib Require Import DecimalString DecimalPos DecimalN.
Import ListNotations.

Open Scope string_scope.
Open Scope Z_scope.

(* ------------------------------------------------------------------ *)
(** ** JavaScript primitives *)

Module JS.

(** [!!s] for a string: the empty string is falsy. *)
Definition truthy (s : string) : bool :=
  match s with EmptyString => false | String _ _ => true end.

(** [x] of an optional property [x] in a condition ([if (x)], [!x],
    [x || d]): [undefined] and the empty string are falsy. *)
Definition present (x : option string) : bool :=
  match x with None => false | Some s => truthy s end.

(** [c.toLowerCase()] on one ASCII character. *)
Definition lowerChar (c : ascii) : ascii :=
  let n := nat_of_ascii c in
  if andb (Nat.leb 65 n) (Nat.leb n 90) then ascii_of_nat (n + 32) else c.

(** [String.prototype.toLowerCase] on a string of ASCII characters. *)
Fixpoint toLowerCase (s : string) : string :=
  match s with
  | EmptyString => EmptyString
  | String c s' => String (lowerChar c) (toLowerCase s')
  end.

(** [s.startsWith(t)]. *)
Fixpoint startsWith (s t : string) : bool :=
  match t, s with
  | EmptyString, _ => true
  | String _ _, EmptyString => false
  | String b t', String a s' => andb (Ascii.eqb a b) (startsWith s' t')
  end.

(** [String.prototype.includes]: [t] occurs in [s] at some position. *)
Fixpoint includes (s t : string) : bool :=
  orb (startsWith s t)
      (match s with
       | EmptyString => false
       | String _ s' => includes s' t
       end).

(** The result of [parseInt]: [NaN] or an integer. *)
Inductive JsInt : Type :=
| NaN : JsInt
| Int : Z -> JsInt.

(** StrWhiteSpaceChar, ASCII part: TAB, LF, VT, FF, CR, SP. *)
Definition isWhiteSpace (c : ascii) : bool :=
  let n := nat_of_ascii c in
  orb (andb (Nat.leb 9 n) (Nat.leb n 13)) (Nat.eqb n 32).

Fixpoint trimStart (s : string) : string :=
  match s with
  | String c s' => if isWhiteSpace c then trimStart s' else s
  | EmptyString => EmptyString
  end.

(** Value of a character as a digit of the given radix (10 or 16). *)
Definition digitOf (radix : Z) (c : ascii) : option Z :=
  let n := Z.of_nat (nat_of_ascii c) in
  let v :=
    if andb (48 <=? n) (n <=? 57) then Some (n - 48)
    else if andb (97 <=? n) (n <=? 102) then Some (n - 87)
    else if andb (65 <=? n) (n <=? 70) then Some (n - 55)
    else None in
  match v with
  | Some d => if d <? radix then Some d else None
  | None => None
  end.

(** The longest prefix of radix digits, read left to right; [None] when
    the prefix is empty. *)
Fixpoint digits (radix : Z) (acc : option Z) (s : string) : option Z :=
  match s with
  | EmptyString => acc
  | String c s' =>
      match digitOf radix c with
      | None => acc
      | Some d =>
          digits radix
            (Some (match acc with None => d | Some a => a * radix + d end))
            s'
      end
  end.

(** [parseInt(s)] with no radix argument (ECMA-262, 19.2.5): leading
    white space, an optional sign, an optional [0x]/[0X] prefix, then the
    longest run of digits. The result is the exact integer: it is the
    JavaScript number for values below 2^53 in absolute value, beyond
    which JavaScript rounds to a double. *)
Definition parseInt (s : string) : JsInt :=
  let s1 := trimStart s in
  let '(sign, s2) :=
    match s1 with
    | String "-" r => (-1, r)
    | String "+" r => (1, r)
    | _ => (1, s1)
    end in
  let '(radix, s3) :=
    match s2 with
    | String "0" (String "x" r) => (16, r)
    | String "0" (String "X" r) => (16, r)
    | _ => (10, s2)
    end in
  match digits radix None s3 with
  | None => NaN
  | Some n => Int (sign * n)
  end.

(** [a + b] on results of [parseInt]. *)
Definition add (a b : JsInt) : JsInt :=
  match a, b with
  | Int x, Int y => Int (x + y)
  | _, _ => NaN
  end.

(** A number as [res.json] serialises it: a NaN or an infinity is written
    [null]. *)
Definition JsonNumber := option Z.

Definition toJson (a : JsInt) : JsonNumber :=
  match a with NaN => None | Int z => Some z end.

(** [Math.floor(a / b) + 1], serialised: the quotient by zero is an
    infinity or NaN. *)
Definition floorDivPlus1 (a b : JsInt) : JsonNumber :=
  match a, b with
  | Int x, Int y => if y =? 0 then None else Some (x / y + 1)
  | _, _ => None
  end.

(** ToIntegerOrInfinity on a result of [parseInt]. *)
Definition toIntegerOrInfinity (a : JsInt) : Z :=
  match a with NaN => 0 | Int z => z end.

(** The clamping of a relative index of [slice] against the length. *)
Definition clampIndex (len : nat) (i : Z) : nat :=
  if i <? 0 then Z.to_nat (Z.max (Z.of_nat len + i) 0)
  else Z.to_nat (Z.min i (Z.of_nat len)).

(** [Array.prototype.slice(start, end)]: a fresh array. *)
Definition slice {A : Type} (l : list A) (start end_ : JsInt) : list A :=
  let len := length l in
  let k := clampIndex len (toIntegerOrInfinity start) in
  let final := clampIndex len (toIntegerOrInfinity end_) in
  firstn (final - k) (skipn k l).

(** [Array.prototype.sort(compareFn)]: the stable sort of the array
    (ECMA-262 requires stability), written as an insertion sort.
    [le a b] stands for [compareFn(a, b) <= 0]. *)
Section Sort.
Context {A : Type} (le : A -> A -> bool).

Fixpoint insert (x : A) (l : list A) : list A :=
  match l with
  | [] => [x]
  | y :: l' => if le x y then x :: l else y :: insert x l'
  end.

Definition sort (l : list A) : list A := fold_right insert [] l.
End Sort.

(** [Array.prototype.find]. *)
Definition find {A : Type} (p : A -> bool) (l : list A) : option A :=
  List.find p l.

(** [[...new Set(l)]]: first occurrences, in insertion order. *)
Fixpoint setOf (seen l : list string) : list string :=
  match l with
  | [] => []
  | x :: l' =>
      if existsb (String.eqb x) seen then setOf seen l'
      else x :: setOf (x :: seen) l'
  end.

(** The default comparison of [sort()]: by code units. *)
Definition defaultLe (a b : string) : bool := String.leb a b.

End JS.

Import JS.

(* ------------------------------------------------------------------ *)
(** ** Data model *)

(** An element of the module-level array [movies]: every property of the
    object literal is present. *)
Record Movie : Type := mkMovie {
  id : Z;
  title : string;
  year : Z;
  genre : string;
  rating : Q;
  duration : string;
  description : string;
  poster_url : string;
  trailer_url : string
}.

(** [process.env.S3_BUCKET_NAME || 'your-movie-media-bucket'] when the
    variable is not set. *)
Definition S3_BUCKET_default : string := "your-movie-media-bucket".

(** The template literals [`https://${S3_BUCKET}.s3.amazonaws.com/...`]. *)
Definition s3_url (S3_BUCKET path : string) : string :=
  "https://" ++ S3_BUCKET ++ ".s3.amazonaws.com/" ++ path.

(** [const movies = [...]], the sample data, for a given bucket name. *)
Definition movies_literal (S3_BUCKET : string) : list Movie :=
  [ mkMovie 1 "Quantum Nexus" 2024 "sci-fi" 4.8 "142 min"
      "A mind-bending journey through parallel dimensions"
      (s3_url S3_BUCKET "posters/quantum-nexus.jpg")
      (s3_url S3_BUCKET "trailers/quantum-nexus.mp4");
    mkMovie 2 "Shadow Protocol" 2024 "action" 4.5 "128 min"
      "Elite agents face their greatest challenge"
      (s3_url S3_BUCKET "posters/shadow-protocol.jpg")
      (s3_url S3_BUCKET "trailers/shadow-protocol.mp4");
    mkMovie 3 "The Last Symphony" 2024 "drama" 4.7 "156 min"
      "A musician's final masterpiece"
      (s3_url S3_BUCKET "posters/last-symphony.jpg")
      (s3_url S3_BUCKET "trailers/last-symphony.mp4");
    mkMovie 4 "Cosmic Comedy Club" 2024 "comedy" 4.2 "98 min"
      "Laughs from across the galaxy"
      (s3_url S3_BUCKET "posters/cosmic-comedy.jpg")
      (s3_url S3_BUCKET "trailers/cosmic-comedy.mp4");
    mkMovie 5 "Digital Phantom" 2024 "thriller" 4.6 "134 min"
      "Reality and virtuality collide"
      (s3_url S3_BUCKET "posters/digital-phantom.jpg")
      (s3_url S3_BUCKET "trailers/digital-phantom.mp4");
    mkMovie 6 "Neon Nights" 2024 "action" 4.4 "118 min"
      "Cyberpunk adventure in Neo-Tokyo"
      (s3_url S3_BUCKET "posters/neon-nights.jpg")
      (s3_url S3_BUCKET "trailers/neon-nights.mp4") ].

(** A row of the table [movies] of the store ([CREATE TABLE] in
    [initDatabase]): every column but [id] and [title] is nullable. The
    store-managed timestamps are left out. *)
Record Row : Type := mkRow {
  r_id : Z;
  r_title : string;
  r_year : option Z;
  r_genre : option string;
  r_rating : option Q;
  r_duration : option string;
  r_description : option string;
  r_poster_url : option string;
  r_trailer_url : option string
}.

(** The one-column rows of [SELECT DISTINCT genre]. *)
Record GenreRow : Type := mkGenreRow { g_genre : option string }.

(** The [ResultSetHeader] of an [INSERT]. *)
Record ResultSetHeader : Type := mkHeader { insertId : Z }.

(* ------------------------------------------------------------------ *)
(** ** The catalogue store behind [executeQuery] *)

(** The statements the handlers send, indexed by the type of their
    result. *)
Inductive Query : Type -> Type :=
| SelectAllByRating : Query (list Row)
    (* SELECT * FROM movies ORDER BY rating DESC *)
| SelectPage (genre search : option string) (limit offset : JsInt) :
    Query (list Row)
    (* SELECT * FROM movies [WHERE genre = ? [AND] (title LIKE ? OR
       description LIKE ?)] ORDER BY rating DESC LIMIT ? OFFSET ? *)
| SelectById (id : JsInt) : Query (list Row)
    (* SELECT * FROM movies WHERE id = ? *)
| InsertMovie (title : string) (year : option Z) (genre : string)
    (rating : option Q)
    (duration description poster_url trailer_url : option string) :
    Query ResultSetHeader
    (* INSERT INTO movies (title, ..., trailer_url) VALUES (?, ..., ?) *)
| SelectTrending (limit : JsInt) : Query (list Row)
    (* SELECT * FROM movies ORDER BY rating DESC LIMIT ? *)
| SelectSameGenre (genre : option string) (id limit : JsInt) :
    Query (list Row)
    (* SELECT * FROM movies WHERE genre = ? AND id != ?
       ORDER BY rating DESC LIMIT ? *)
| SelectDistinctGenres : Query (list GenreRow).
    (* SELECT DISTINCT genre FROM movies ORDER BY genre *)

Module SQL.

(** [ORDER BY rating DESC]: NULL sorts last. *)
Definition ratingDesc (a b : Row) : bool :=
  match r_rating b, r_rating a with
  | None, _ => true
  | Some _, None => false
  | Some rb, Some ra => Qle_bool rb ra
  end.

Definition orderByRatingDesc (t : list Row) : list Row :=
  sort ratingDesc t.

(** [x LIKE p] under a case-insensitive collation: [%] matches any run
    of characters, [_] any one character, a backslash quotes the next
    character. *)
Fixpoint like (p s : string) : bool :=
  match p with
  | EmptyString => match s with EmptyString => true | _ => false end
  | String "%" p' =>
      (fix anyRun (s : string) : bool :=
         orb (like p' s)
             (match s with
              | EmptyString => false
              | String _ s' => anyRun s'
              end)) s
  | String "_" p' =>
      match s with EmptyString => false | String _ s' => like p' s' end
  | String "\" (String c p') =>
      match s with
      | EmptyString => false
      | String d s' => andb (Ascii.eqb (lowerChar c) (lowerChar d)) (like p' s')
      end
  | String c p' =>
      match s with
      | EmptyString => false
      | String d s' => andb (Ascii.eqb (lowerChar c) (lowerChar d)) (like p' s')
      end
  end.

(** Comparison with a nullable column: NULL matches nothing. *)
Definition colLike (col : option string) (p : string) : bool :=
  match col with None => false | Some s => like p s end.

Definition colEq (col : option string) (v : option string) : bool :=
  match col, v with
  | Some s, Some x => String.eqb s x
  | _, _ => false
  end.

Definition idEq (i : Z) (v : JsInt) : bool :=
  match v with NaN => false | Int z => i =? z end.

(** [LIMIT n OFFSET k]: the statement is rejected unless both are
    non-negative integers. *)
Definition limitOffset {A : Type} (limit offset : JsInt) (l : list A) :
  option (list A) :=
  match limit, offset with
  | Int n, Int k =>
      if andb (0 <=? n) (0 <=? k)
      then Some (firstn (Z.to_nat n) (skipn (Z.to_nat k) l))
      else None
  | _, _ => None
  end.

Definition wherePage (genre search : option string) (r : Row) : bool :=
  andb (match genre with
        | None => true
        | Some _ => colEq (r_genre r) genre
        end)
       (match search with
        | None => true
        | Some s =>
            let p := "%" ++ s ++ "%" in
            orb (colLike (Some (r_title r)) p) (colLike (r_description r) p)
        end).

(** Ordering of [ORDER BY genre] on the one-column rows: NULL first. *)
Definition genreAsc (a b : GenreRow) : bool :=
  match g_genre a, g_genre b with
  | None, _ => true
  | Some _, None => false
  | Some x, Some y => String.leb x y
  end.

Fixpoint distinct (seen : list (option string)) (l : list (option string)) :
  list (option string) :=
  match l with
  | [] => []
  | x :: l' =>
      if existsb (fun y => match x, y with
                           | None, None => true
                           | Some a, Some b => String.eqb a b
                           | _, _ => false
                           end) seen
      then distinct seen l'
      else x :: distinct (x :: seen) l'
  end.

(** The table and its [AUTO_INCREMENT] counter. *)
Record Table : Type := mkTable { rows : list Row; auto_increment : Z }.

(** One statement against the table: [None] when the server rejects it,
    otherwise the result and the table afterwards. An [INSERT] stores its
    values as they are: the widths and ranges of the columns are not
    enforced here (see [fitsColumns]). *)
Definition run {R : Type} (q : Query R) (t : Table) : option (R * Table) :=
  match q in Query R return option (R * Table) with
  | SelectAllByRating => Some (orderByRatingDesc (rows t), t)
  | SelectPage g s limit offset =>
      match limitOffset limit offset
              (orderByRatingDesc (filter (wherePage g s) (rows t))) with
      | Some l => Some (l, t)
      | None => None
      end
  | SelectById i => Some (filter (fun r => idEq (r_id r) i) (rows t), t)
  | InsertMovie ti y g ra du de po tr =>
      let i := auto_increment t in
      Some (mkHeader i,
            mkTable (rows t ++ [mkRow i ti y (Some g) ra du de po tr])
                    (i + 1))
  | SelectTrending limit =>
      match limitOffset limit (Int 0) (orderByRatingDesc (rows t)) with
      | Some l => Some (l, t)
      | None => None
      end
  | SelectSameGenre g i limit =>
      match limitOffset limit (Int 0)
              (orderByRatingDesc
                 (filter (fun r => andb (colEq (r_genre r) g)
                                        (negb (idEq (r_id r) i)))
                         (rows t))) with
      | Some l => Some (l, t)
      | None => None
      end
  | SelectDistinctGenres =>
      Some (sort genreAsc
              (map mkGenreRow (distinct [] (map r_genre (rows t)))), t)
  end.

End SQL.

(** The store as the process sees it: the table, and for each call of
    [executeQuery] (counted by [calls]) whether the connection fails at
    that call ([down]). *)
Record Store : Type := mkStore {
  table : SQL.Table;
  down : nat -> bool;
  calls : nat
}.

(** [executeQuery(query, params)]: the rows (or header) of the statement,
    [null] when there is no connection or the statement throws. *)
Definition executeQuery {R : Type} (q : Query R) (s : Store) :
  option R * Store :=
  if down s (calls s) then (None, mkStore (table s) (down s) (S (calls s)))
  else
    match SQL.run q (table s) with
    | Some (r, t') => (Some r, mkStore t' (down s) (S (calls s)))
    | None => (None, mkStore (table s) (down s) (S (calls s)))
    end.

(** The state of the process. *)
Record World : Type := mkWorld {
  movies : list Movie;
  store : Store
}.

(* ------------------------------------------------------------------ *)
(** ** Requests and responses *)

(** [req.query] of [GET /api/movies]. *)
Record ListParams : Type := mkListParams {
  q_genre : option string;
  q_search : option string;
  q_limit : option string;
  q_offset : option string
}.

(** [req.body] of [POST /api/movies]. *)
Record MovieBody : Type := mkMovieBody {
  b_title : option string;
  b_year : option Z;
  b_genre : option string;
  b_rating : option Q;
  b_duration : option string;
  b_description : option string;
  b_poster_url : option string;
  b_trailer_url : option string
}.

(** A list of movies in a response: objects of the array [movies] or rows
    of the store. *)
Inductive Items : Type :=
| SeedObjects (l : list Movie)
| StoreRows (l : list Row).

Definition itemsLength (i : Items) : nat :=
  match i with SeedObjects l => length l | StoreRows l => length l end.

(** The JSON bodies the handlers send. *)
Inductive Body : Type :=
| MoviesPage (items : Items) (total : nat) (page limit : JsonNumber)
| SeedMovie (m : Movie)
| StoreMovie (r : Row)
| MovieArray (items : Items)
| Created (message : string) (new_id : Z)
| Recommendations (recommendations : Items) (basedOn : string)
    (of_genre : option string)
| Genres (l : list (option string))
| Error (error : string).

Record Response : Type := mkResponse { status : nat; body : Body }.

Definition json (b : Body) : Response := mkResponse 200 b.

(* ------------------------------------------------------------------ *)
(** ** The handlers *)

(** [(a, b) => b.rating - a.rating] as the order [sort] needs: the
    difference is not positive. *)
Definition byRatingDesc (a b : Movie) : bool :=
  Qle_bool (rating b - rating a) 0.

(** [m.id === id] for a parsed id. *)
Definition idIs (i : JsInt) (m : Movie) : bool :=
  match i with NaN => false | Int z => id m =? z end.

(** [genre && genre !== 'all']. *)
Definition genreGiven (g : option string) : bool :=
  match g with
  | None => false
  | Some s => andb (truthy s) (negb (String.eqb s "all"))
  end.

(** The two in-memory filters of [GET /api/movies]. *)
Definition filterGenre (g : option string) (l : list Movie) : list Movie :=
  match g with
  | Some s => if genreGiven g then filter (fun m => String.eqb (genre m) s) l
              else l
  | None => l
  end.

Definition matchesSearch (searchTerm : string) (m : Movie) : bool :=
  orb (includes (toLowerCase (title m)) searchTerm)
      (includes (toLowerCase (description m)) searchTerm).

Definition filterSearch (s : option string) (l : list Movie) : list Movie :=
  match s with
  | Some t => if truthy t then filter (matchesSearch (toLowerCase t)) l else l
  | None => l
  end.

(** [limit = 20] and [offset = 0] of the destructuring, then [parseInt]. *)
Definition parsedOr (d : Z) (x : option string) : JsInt :=
  match x with None => Int d | Some s => parseInt s end.

(** [parseInt(req.query.limit || d)]. *)
Definition parsedOrFalsy (d : Z) (x : option string) : JsInt :=
  match x with
  | Some s => if truthy s then parseInt s else Int d
  | None => Int d
  end.

(** [app.get('/api/movies')]. *)
Definition getMovies (q : ListParams) (w : World) : Response * World :=
  let limit := parsedOr 20 (q_limit q) in
  let offset := parsedOr 0 (q_offset q) in
  let (dbMovies, s1) := executeQuery SelectAllByRating (store w) in
  let (movieList, s2) :=
    match dbMovies with
    | Some (r :: rs) =>
        let g := if genreGiven (q_genre q) then q_genre q else None in
        let s := if present (q_search q) then q_search q else None in
        let (filteredMovies, s2) :=
          executeQuery (SelectPage g s limit offset) s1 in
        (match filteredMovies with
         | Some f => StoreRows f
         | None => StoreRows (r :: rs)
         end, s2)
    | _ =>
        let l1 := filterGenre (q_genre q) (movies w) in
        let l2 := filterSearch (q_search q) l1 in
        (SeedObjects (slice l2 offset (add offset limit)), s1)
    end in
  (json (MoviesPage movieList (itemsLength movieList)
           (floorDivPlus1 offset limit) (toJson limit)),
   mkWorld (movies w) s2).

(** [app.get('/api/movies/:id')]. *)
Definition getMovie (idParam : string) (w : World) : Response * World :=
  let i := parseInt idParam in
  let (dbMovie, s1) := executeQuery (SelectById i) (store w) in
  let w1 := mkWorld (movies w) s1 in
  match dbMovie with
  | Some (r :: _) => (json (StoreMovie r), w1)
  | _ =>
      match find (idIs i) (movies w) with
      | None => (mkResponse 404 (Error "Movie not found"), w1)
      | Some movie => (json (SeedMovie movie), w1)
      end
  end.

(** [x || null] on the optional fields of the body. *)
Definition orNullS (x : option string) : option string :=
  match x with Some s => if truthy s then Some s else None | None => None end.

Definition orNullZ (x : option Z) : option Z :=
  match x with Some z => if z =? 0 then None else Some z | None => None end.

Definition orNullQ (x : option Q) : option Q :=
  match x with
  | Some r => if Qeq_bool r 0 then None else Some r
  | None => None
  end.

(** [app.post('/api/movies')]. *)
Definition postMovie (b : MovieBody) (w : World) : Response * World :=
  match b_title b, b_genre b with
  | Some t, Some g =>
      if andb (truthy t) (truthy g) then
        let (result, s1) :=
          executeQuery
            (InsertMovie t (orNullZ (b_year b)) g (orNullQ (b_rating b))
               (orNullS (b_duration b)) (orNullS (b_description b))
               (orNullS (b_poster_url b)) (orNullS (b_trailer_url b)))
            (store w) in
        let w1 := mkWorld (movies w) s1 in
        match result with
        | Some h =>
            (mkResponse 201 (Created "Movie added successfully" (insertId h)),
             w1)
        | None =>
            (mkResponse 500 (Error "Failed to add movie to database"), w1)
        end
      else (mkResponse 400 (Error "Title and genre are required"), w)
  | _, _ => (mkResponse 400 (Error "Title and genre are required"), w)
  end.

(** The function registered with [app.get('/api/movies/trending')]: the
    fallback sorts the array [movies] itself and slices the sorted
    array. *)
Definition getTrending (limitParam : option string) (w : World) :
  Response * World :=
  let limit := parsedOrFalsy 6 limitParam in
  let (dbMovies, s1) := executeQuery (SelectTrending limit) (store w) in
  match dbMovies with
  | Some (r :: rs) => (json (MovieArray (StoreRows (r :: rs))),
                       mkWorld (movies w) s1)
  | _ =>
      let sorted := sort byRatingDesc (movies w) in
      let trendingMovies := slice sorted (Int 0) limit in
      (json (MovieArray (SeedObjects trendingMovies)), mkWorld sorted s1)
  end.

(** [app.get('/api/recommendations/:movieId')]. *)
Definition getRecommendations (movieIdParam : string)
  (limitParam : option string) (w : World) : Response * World :=
  let movieId := parseInt movieIdParam in
  let limit := parsedOrFalsy 4 limitParam in
  let (baseMovie, s1) := executeQuery (SelectById movieId) (store w) in
  match baseMovie with
  | Some (movie :: _) =>
      let (recommendations, s2) :=
        executeQuery (SelectSameGenre (r_genre movie) movieId limit) s1 in
      let w2 := mkWorld (movies w) s2 in
      match recommendations with
      | Some recs =>
          (json (Recommendations (StoreRows recs) (r_title movie)
                   (r_genre movie)), w2)
      | None =>
          match find (idIs movieId) (movies w) with
          | None => (mkResponse 404 (Error "Movie not found"), w2)
          | Some inMemoryMovie =>
              let inMemoryRecs :=
                slice
                  (sort byRatingDesc
                     (filter (fun m =>
                                andb (String.eqb (genre m)
                                        (genre inMemoryMovie))
                                     (negb (idIs movieId m)))
                             (movies w)))
                  (Int 0) limit in
              (json (Recommendations (SeedObjects inMemoryRecs)
                       (title inMemoryMovie) (Some (genre inMemoryMovie))),
               w2)
          end
      end
  | _ => (mkResponse 404 (Error "Movie not found"), mkWorld (movies w) s1)
  end.

(** [app.get('/api/genres')]. *)
Definition getGenres (w : World) : Response * World :=
  let (genres, s1) := executeQuery SelectDistinctGenres (store w) in
  let w1 := mkWorld (movies w) s1 in
  match genres with
  | Some rows => (json (Genres (map g_genre rows)), w1)
  | None =>
      let uniqueGenres := sort defaultLe (setOf [] (map genre (movies w))) in
      (json (Genres (map Some uniqueGenres)), w1)
  end.

(** The requests of the six catalogue operations: [GET /api/movies],
    [GET /api/movies/<id>], [POST /api/movies], [GET /api/movies/trending],
    [GET /api/recommendations/<id>] and [GET /api/genres]. *)
Inductive Request : Type :=
| List_ (q : ListParams)
| GetById (idParam : string)
| Create (b : MovieBody)
| Trending (limitParam : option string)
| RecommendationsFor (movieIdParam : string) (limitParam : option string)
| DistinctGenres.

(** The handler that Express runs for a request. Express tries the routes
    in the order of their registration and runs the first one whose path
    matches; every handler of this file answers and none calls [next()].
    [app.get('/api/movies/:id')] (line 286) is registered before
    [app.get('/api/movies/trending')] (line 342) and its pattern matches
    the path [/api/movies/trending] with [id = "trending"]: a Trending
    request is served by the handler of [/api/movies/:id], and the handler
    [getTrending] is never run. *)
Definition handle (r : Request) (w : World) : Response * World :=
  match r with
  | List_ q => getMovies q w
  | GetById i => getMovie i w
  | Create b => postMovie b w
  | Trending _ => getMovie "trending" w
  | RecommendationsFor i l => getRecommendations i l w
  | DistinctGenres => getGenres w
  end.

(** The state after a sequence of requests, served one after the other. *)
Definition serveAll (rs : list Request) (w : World) : World :=
  fold_left (fun w r => snd (handle r w)) rs w.

(** Reads are all requests but [Create]. *)
Definition isRead (r : Request) : bool :=
  match r with Create _ => false | _ => true end.

(** A store that no call reaches, and one that every call reaches. *)
Definition unreachable (t : SQL.Table) : Store := mkStore t (fun _ => true) 0.
Definition reachable (t : SQL.Table) : Store := mkStore t (fun _ => false) 0.

Definition emptyTable : SQL.Table := SQL.mkTable [] 1.

(** The process right after start with no database: the array [movies] as
    written, every call of [executeQuery] returning [null]. *)
Definition startOffline (S3_BUCKET : string) : World :=
  mkWorld (movies_literal S3_BUCKET) (unreachable emptyTable).

(* ------------------------------------------------------------------ *)
(** ** Vocabulary of the statements *)

(** The order [le] as a relation. *)
Definition holds {A : Type} (le : A -> A -> bool) (a b : A) : Prop :=
  le a b = true.

(** A sequence of movies is in descending order of rating: every movie is
    rated at least as high as every later one. *)
Definition descendingByRating (l : list Movie) : Prop :=
  StronglySorted (fun a b => (rating b <= rating a)%Q) l.

(** The next call of [executeQuery] finds no connection. *)
Definition storeDown (w : World) : Prop :=
  down (store w) (calls (store w)) = true.

(** The next call of [executeQuery] reaches the store. *)
Definition storeUp (w : World) : Prop :=
  down (store w) (calls (store w)) = false.

(** The table holds a row with the given id. *)
Definition holdsId (w : World) (i : JsInt) : bool :=
  existsb (fun r => SQL.idEq (r_id r) i) (SQL.rows (table (store w))).

(** The array [movies] holds the six sample movies, in some order. *)
Definition seedState (S3_BUCKET : string) (w : World) : Prop :=
  Permutation (movies w) (movies_literal S3_BUCKET).

(** The array after the two filters of the in-memory branch of
    [GET /api/movies]. *)
Definition inMemoryFiltered (q : ListParams) (l : list Movie) : list Movie :=
  filterSearch (q_search q) (filterGenre (q_genre q) l).

(** The page that branch cuts out of it. *)
Definition inMemoryPage (q : ListParams) (l : list Movie) : list Movie :=
  slice (inMemoryFiltered q l) (parsedOr 0 (q_offset q))
    (add (parsedOr 0 (q_offset q)) (parsedOr 20 (q_limit q))).

(** The sample movies by descending rating. *)
Definition seedByRating (S3_BUCKET : string) : list Movie :=
  sort byRatingDesc (movies_literal S3_BUCKET).

(** A store that is reached and holds one row, of id 7. *)
Definition otherRow : Row :=
  mkRow 7 "Harbour Lights" None (Some "drama") None None None None None.

(** The array as written, next to that store. *)
Definition storeWithoutId1 : World :=
  mkWorld (movies_literal S3_BUCKET_default)
          (reachable (SQL.mkTable [otherRow] 8)).

(** Two characters are the same up to the case of a letter: they are
    equal, or one is an upper-case letter A to Z (codes 65 to 90) and the
    other is the lower-case letter, 32 codes above. *)
Definition sameLetter (a b : ascii) : Prop :=
  a = b
  \/ ((65 <= nat_of_ascii a <= 90)%nat
      /\ nat_of_ascii b = (nat_of_ascii a + 32)%nat)
  \/ ((65 <= nat_of_ascii b <= 90)%nat
      /\ nat_of_ascii a = (nat_of_ascii b + 32)%nat).

(** Two strings are the same up to letter case, character by character. *)
Inductive sameUpToCase : string -> string -> Prop :=
| same_empty : sameUpToCase EmptyString EmptyString
| same_char (a b : ascii) (s t : string) :
    sameLetter a b -> sameUpToCase s t ->
    sameUpToCase (String a s) (String b t).

(** [s] contains [t], letter case ignored: some substring of [s] is [t] up
    to letter case. *)
Definition containsIgnoringCase (s t : string) : Prop :=
  exists pre x post, s = pre ++ x ++ post /\ sameUpToCase x t.

(** Every character of the string is an ASCII character (code below
    128). *)
Definition asciiOnly (s : string) : Prop :=
  Forall (fun c => (nat_of_ascii c < 128)%nat) (list_ascii_of_string s).

(** A request body with an empty title, and a complete one. *)
Definition bodyNoTitle : MovieBody :=
  mkMovieBody (Some EmptyString) (Some 2025) (Some "drama") (Some 4.1%Q)
              None None None None.

Definition bodyComplete : MovieBody :=
  mkMovieBody (Some "Harbour Lights") (Some 2025) (Some "drama")
              (Some 4.1%Q) None None None None.

(* ------------------------------------------------------------------ *)
(** ** Start-up: [initDatabase] *)

(** One use of the connection that returns nothing the model keeps: the
    call is counted. *)
Definition tick (s : Store) : Store :=
  mkStore (table s) (down s) (S (calls s)).

(** The [INSERT] that [initDatabase] sends for one element of [movies]:
    every column gets the property of the object. *)
Definition insertSample (movie : Movie) : Query ResultSetHeader :=
  InsertMovie (title movie) (Some (year movie)) (genre movie)
    (Some (rating movie)) (Some (duration movie))
    (Some (description movie)) (Some (poster_url movie))
    (Some (trailer_url movie)).

(** [for (const movie of movies) await conn.execute(INSERT ...)]: a failing
    statement throws and leaves the loop, the rows inserted so far stay. *)
Fixpoint insertAll (l : list Movie) (s : Store) : Store :=
  match l with
  | [] => s
  | movie :: l' =>
      match executeQuery (insertSample movie) s with
      | (Some _, s') => insertAll l' s'
      | (None, s') => s'
      end
  end.

(** [initDatabase()]: connect and [CREATE TABLE IF NOT EXISTS] (one use
    of the connection; the table of the model always exists), then
    [SELECT COUNT( * )], then the sample rows when the count is 0. A failed
    connection returns, a failing statement is caught by the [try]: both
    end the function. *)
Definition initDatabase (w : World) : World :=
  let s := store w in
  if down s (calls s) then mkWorld (movies w) (tick s)
  else
    let s1 := tick s in
    if down s1 (calls s1) then mkWorld (movies w) (tick s1)
    else
      let s2 := tick s1 in
      if Z.of_nat (length (SQL.rows (table s2))) =? 0
      then mkWorld (movies w) (insertAll (movies w) s2)
      else mkWorld (movies w) s2.

(** The store is reached at each of the next [n] uses of the
    connection. *)
Definition storeUpFor (n : nat) (s : Store) : Prop :=
  forall k, (k < n)%nat -> down s (calls s + k) = false.

(** The row that the [INSERT] of a sample movie creates under id [i]. *)
Definition sampleRow (i : Z) (movie : Movie) : Row :=
  mkRow i (title movie) (Some (year movie)) (Some (genre movie))
    (Some (rating movie)) (Some (duration movie))
    (Some (description movie)) (Some (poster_url movie))
    (Some (trailer_url movie)).

(** The rows created for a list of movies, from id [i] on. *)
Fixpoint sampleRows (i : Z) (l : list Movie) : list Row :=
  match l with
  | [] => []
  | movie :: l' => sampleRow i movie :: sampleRows (i + 1) l'
  end.

(** The ids of the table are distinct and below the [AUTO_INCREMENT]
    counter. *)
Definition tableOk (t : SQL.Table) : Prop :=
  NoDup (map r_id (SQL.rows t))
  /\ Forall (fun r => r_id r < SQL.auto_increment t) (SQL.rows t).

(** The statements that only read. *)
Definition isSelect {R : Type} (q : Query R) : bool :=
  match q with
  | InsertMovie _ _ _ _ _ _ _ _ => false
  | _ => true
  end.

(** The movies of a response that lists objects of the array. *)
Definition seedMoviesOf (r : Response) : option (list Movie) :=
  match body r with
  | MoviesPage (SeedObjects l) _ _ _ => Some l
  | MovieArray (SeedObjects l) => Some l
  | Recommendations (SeedObjects l) _ _ => Some l
  | _ => None
  end.

(** [a] comes before [b] wherever both occur: [l] is a subsequence of
    [l']. *)
Inductive Subsequence {A : Type} : list A -> list A -> Prop :=
| sub_nil : Subsequence [] []
| sub_skip (x : A) (l l' : list A) :
    Subsequence l l' -> Subsequence l (x :: l')
| sub_keep (x : A) (l l' : list A) :
    Subsequence l l' -> Subsequence (x :: l) (x :: l').

(* ------------------------------------------------------------------ *)
(** ** Uploads *)

(** [`${n}`] for a non-negative integer [n] below 1e21: its decimal
    digits. *)
Definition numberToString (n : N) : string :=
  NilZero.string_of_uint (N.to_uint n).

(** The [key] function given to multer-s3,
    [`movies/${timestamp}-${file.originalname}`], with the value of
    [Date.now()] as an argument. *)
Definition uploadKey (timestamp : N) (originalname : string) : string :=
  "movies/" ++ numberToString timestamp ++ "-" ++ originalname.

(* ------------------------------------------------------------------ *)
(** ** Further states and requests used as examples *)

(** A store with one row that is reached at the first call only. *)
Definition dropsAfterFirst : World :=
  mkWorld (movies_literal S3_BUCKET_default)
    (mkStore (SQL.mkTable [otherRow] 8)
       (fun n => match n with 0%nat => false | _ => true end) 0).

(** A reached store whose only row has the id 1 of a sample movie. *)
Definition sameIdAsSeed : World :=
  mkWorld (movies_literal S3_BUCKET_default)
    (reachable
       (SQL.mkTable
          [mkRow 1 "Harbour Lights" None (Some "drama") None None None
             None None] 2)).

(** A store with a row of id 2 that is reached at the first call only. *)
Definition baseInStoreThenDown : World :=
  mkWorld (movies_literal S3_BUCKET_default)
    (mkStore
       (SQL.mkTable
          [mkRow 2 "Harbour Lights" None (Some "drama") None None None
             None None] 3)
       (fun n => match n with 0%nat => false | _ => true end) 0).

(** A reached store with an empty table. *)
Definition emptyButReachable : World :=
  mkWorld (movies_literal S3_BUCKET_default) (reachable emptyTable).

(** A request body with the year 0 and the rating 0. *)
Definition bodyZeroRating : MovieBody :=
  mkMovieBody (Some "Harbour Lights") (Some 0) (Some "drama")
              (Some 0%Q) None None None None.

(* ------------------------------------------------------------------ *)
(** ** The columns of the table *)

(** A text value fits a column of at most [n] characters. *)
Definition fitsText (n : Z) (x : option string) : Prop :=
  forall v, x = Some v -> Z.of_nat (String.length v) <= n.

(** The values of a request body fit the columns that [CREATE TABLE]
    declares in [initDatabase] (lines 143 to 151): [title VARCHAR(255)],
    [year INT], [genre VARCHAR(100)], [rating DECIMAL(2,1)] (one decimal
    digit, between -9.9 and 9.9), [duration VARCHAR(50)],
    [description TEXT] (65535 bytes), [poster_url] and [trailer_url
    VARCHAR(500)]. [SQL.run] stores the values of an [INSERT] as they are
    and enforces none of these bounds: what is stated about an inserted
    row is stated for values that fit. *)
Definition fitsColumns (b : MovieBody) : Prop :=
  fitsText 255 (b_title b)
  /\ (forall y, b_year b = Some y -> - 2 ^ 31 <= y < 2 ^ 31)
  /\ fitsText 100 (b_genre b)
  /\ (forall x, b_rating b = Some x ->
        exists k : Z, - 99 <= k <= 99 /\ (x * 10 == inject_Z k)%Q)
  /\ fitsText 50 (b_duration b)
  /\ fitsText 65535 (b_description b)
  /\ fitsText 500 (b_poster_url b)
  /\ fitsText 500 (b_trailer_url b).

(* ------------------------------------------------------------------ *)
(** ** Facts about the JavaScript primitives *)

Section SortFacts.
Context {A : Type} (le : A -> A -> bool).

Hypothesis le_total : forall a b, le a b = true \/ le b a = true.
Hypothesis le_trans :
  forall a b c, le a b = true -> le b c = true -> le a c = true.

Lemma insert_perm (x : A) (l : list A) : Permutation (insert le x l) (x :: l).
Proof.
  induction l as [|y l IH]; simpl.
  - apply Permutation_refl.
  - destruct (le x y).
    + apply Permutation_refl.
    + eapply perm_trans; [apply perm_skip, IH | apply perm_swap].
Qed.

Lemma sort_perm (l : list A) : Permutation (sort le l) l.
Proof.
  induction l as [|x l IH]; simpl.
  - constructor.
  - eapply perm_trans; [apply insert_perm | apply perm_skip, IH].
Qed.

Lemma insert_sorted (x : A) (l : list A) :
  StronglySorted (holds le) l -> StronglySorted (holds le) (insert le x l).
Proof.
  induction 1 as [|y l Hs IH Hy]; simpl.
  - repeat constructor.
  - destruct (le x y) eqn:E.
    + constructor; [constructor; assumption|].
      constructor; [exact E|].
      eapply Forall_impl; [|exact Hy].
      intros z Hz. unfold holds in *. eapply le_trans; eassumption.
    + constructor; [exact IH|].
      assert (Hyx : holds le y x).
      { destruct (le_total x y) as [H'|H']; [congruence | exact H']. }
      rewrite Forall_forall. intros z Hz.
      apply (Permutation_in _ (insert_perm x l)) in Hz.
      destruct Hz as [<-|Hz]; [exact Hyx|].
      rewrite Forall_forall in Hy. now apply Hy.
Qed.

Lemma sort_sorted (l : list A) : StronglySorted (holds le) (sort le l).
Proof.
  induction l as [|x l IH]; simpl.
  - constructor.
  - now apply insert_sorted.
Qed.

(** Two sorted arrangements of the same elements coincide when no two
    distinct elements compare equal. *)
Lemma sorted_perm_eq (l1 : list A) :
  forall l2,
    StronglySorted (holds le) l1 -> StronglySorted (holds le) l2 ->
    Permutation l1 l2 ->
    (forall a b, In a l1 -> In b l1 ->
                 le a b = true -> le b a = true -> a = b) ->
    l1 = l2.
Proof.
  induction l1 as [|a l1 IH]; intros l2 H1 H2 HP Hanti.
  - apply Permutation_nil in HP. now subst.
  - destruct l2 as [|b l2].
    + apply Permutation_sym, Permutation_nil in HP. discriminate.
    + assert (Hab : a = b).
      { assert (Hb : In b (a :: l1))
          by (eapply Permutation_in; [apply Permutation_sym, HP | now left]).
        assert (Ha : In a (b :: l2))
          by (eapply Permutation_in; [apply HP | now left]).
        destruct Hb as [Hb|Hb]; [exact Hb|].
        destruct Ha as [Ha|Ha]; [now symmetry|].
        apply StronglySorted_inv in H1. destruct H1 as [_ F1].
        apply StronglySorted_inv in H2. destruct H2 as [_ F2].
        rewrite Forall_forall in F1, F2.
        apply Hanti; [now left | now right | now apply F1 | now apply F2]. }
      subst b. f_equal.
      apply IH.
      * now apply StronglySorted_inv in H1.
      * now apply StronglySorted_inv in H2.
      * eapply Permutation_cons_inv; exact HP.
      * intros x y Hx Hy. apply Hanti; now right.
Qed.

(** The sorted array depends only on the elements of the array when no
    two distinct elements compare equal. *)
Lemma sort_perm_eq (l1 l2 : list A) :
  Permutation l1 l2 ->
  (forall a b, In a l2 -> In b l2 ->
               le a b = true -> le b a = true -> a = b) ->
  sort le l1 = sort le l2.
Proof.
  intros HP Hanti.
  apply sorted_perm_eq.
  - apply sort_sorted.
  - apply sort_sorted.
  - eapply perm_trans; [apply sort_perm|].
    eapply perm_trans; [exact HP|]. apply Permutation_sym, sort_perm.
  - intros a b Ha Hb. apply Hanti.
    + eapply Permutation_in; [|exact Ha].
      eapply perm_trans; [apply sort_perm | exact HP].
    + eapply Permutation_in; [|exact Hb].
      eapply perm_trans; [apply sort_perm | exact HP].
Qed.

End SortFacts.

Lemma startsWith_spec (t : string) :
  forall s, startsWith s t = true <-> exists r, s = t ++ r.
Proof.
  induction t as [|b t IH]; intros s; simpl.
  - split; [intros _; now exists s | intros _; now destruct s].
  - destruct s as [|a s]; simpl.
    + split; [discriminate | intros [r Hr]; discriminate].
    + rewrite andb_true_iff, Ascii.eqb_eq, IH. split.
      * intros [-> [r ->]]. now exists r.
      * intros [r Hr]. injection Hr as -> ->. split; [reflexivity | now exists r].
Qed.

(** [s.includes(t)] holds exactly when [t] occurs in [s]. *)
Lemma includes_unfold (s t : string) :
  includes s t =
  orb (startsWith s t)
      (match s with EmptyString => false | String _ s' => includes s' t end).
Proof. destruct s; reflexivity. Qed.

(** [s.includes(t)] holds exactly when [t] occurs in [s]. *)
Lemma includes_spec (s : string) :
  forall t, includes s t = true <-> exists a b, s = a ++ t ++ b.
Proof.
  induction s as [|c s IH]; intros t; rewrite includes_unfold.
  - rewrite orb_false_r, startsWith_spec. split.
    + intros [r Hr]. now exists EmptyString, r.
    + intros [a [b H]]. destruct a; [now exists b | discriminate].
  - rewrite orb_true_iff, startsWith_spec, IH. split.
    + intros [[r Hr]|[a [b H]]].
      * now exists EmptyString, r.
      * exists (String c a), b. simpl. now rewrite H.
    + intros [a [b H]]. destruct a as [|c' a]; simpl in H.
      * left. now exists b.
      * right. injection H as _ H. now exists a, b.
Qed.

Lemma clampIndex_0 (len : nat) : clampIndex len 0 = 0%nat.
Proof.
  unfold clampIndex. simpl. rewrite Z.min_l by apply Nat2Z.is_nonneg.
  reflexivity.
Qed.

Lemma clampIndex_nonneg (len : nat) (n : Z) :
  0 <= n -> clampIndex len n = Nat.min (Z.to_nat n) len.
Proof.
  intros Hn. unfold clampIndex.
  replace (n <? 0) with false by (symmetry; apply Z.ltb_ge; exact Hn).
  lia.
Qed.

Lemma slice_from_0 {A : Type} (l : list A) (n : Z) :
  0 <= n -> slice l (Int 0) (Int n) = firstn (Z.to_nat n) l.
Proof.
  intros Hn. unfold slice, toIntegerOrInfinity.
  rewrite clampIndex_0, clampIndex_nonneg by exact Hn.
  rewrite Nat.sub_0_r. simpl.
  destruct (Nat.le_ge_cases (Z.to_nat n) (length l)) as [H|H].
  - now rewrite Nat.min_l.
  - rewrite Nat.min_r by exact H.
    rewrite firstn_all. symmetry. now apply firstn_all2.
Qed.

(** A slice from the front is a prefix, whatever the end index. *)
Lemma slice_0_prefix {A : Type} (l : list A) (e : JsInt) :
  exists n, slice l (Int 0) e = firstn n l.
Proof.
  unfold slice. simpl toIntegerOrInfinity. rewrite clampIndex_0, Nat.sub_0_r.
  simpl. eexists. reflexivity.
Qed.


(** The slice between two non-negative indices. *)
Lemma slice_nonneg {A : Type} (l : list A) (i j : Z) :
  0 <= i -> 0 <= j ->
  slice l (Int i) (Int j)
  = firstn (Nat.min (Z.to_nat j) (length l) - Nat.min (Z.to_nat i) (length l))
      (skipn (Nat.min (Z.to_nat i) (length l)) l).
Proof.
  intros Hi Hj. unfold slice. simpl toIntegerOrInfinity.
  now rewrite !clampIndex_nonneg.
Qed.

Lemma slice_length {A : Type} (l : list A) (a b : JsInt) :
  (length (slice l a b) <= length l)%nat.
Proof.
  unfold slice. rewrite length_firstn, length_skipn. lia.
Qed.

Lemma filter_perm {A : Type} (f : A -> bool) (l l' : list A) :
  Permutation l l' -> Permutation (filter f l) (filter f l').
Proof.
  induction 1 as [|x l l' _ IH|x y l|l l' l'' _ IH1 _ IH2]; simpl.
  - constructor.
  - destruct (f x); [now constructor | exact IH].
  - destruct (f x), (f y); try apply Permutation_refl. apply perm_swap.
  - eapply perm_trans; eassumption.
Qed.

Lemma existsb_eqb_In (x : string) (l : list string) :
  existsb (String.eqb x) l = true <-> In x l.
Proof.
  rewrite existsb_exists. split.
  - intros [y [Hy E]]. apply String.eqb_eq in E. now subst.
  - intros H. exists x. split; [exact H | apply String.eqb_refl].
Qed.

Lemma setOf_In (l : list string) :
  forall seen x, In x (setOf seen l) <-> In x l /\ ~ In x seen.
Proof.
  induction l as [|y l IH]; intros seen x; simpl.
  - tauto.
  - destruct (existsb (String.eqb y) seen) eqn:E.
    + apply existsb_eqb_In in E. rewrite IH. split.
      * tauto.
      * intros [[->|H] Hn]; tauto.
    + assert (Hy : ~ In y seen).
      { intros H. apply existsb_eqb_In in H. congruence. }
      simpl. rewrite IH. simpl. split.
      * intros [->|[H Hn]]; [tauto|]. split; [tauto|]. intros H'. apply Hn. now right.
      * intros [[->|H] Hn]; [now left|].
        destruct (string_dec y x) as [->|Hne]; [now left|].
        right. split; [exact H|]. intros [H'|H']; tauto.
Qed.

Lemma setOf_NoDup (l : list string) : forall seen, NoDup (setOf seen l).
Proof.
  induction l as [|y l IH]; intros seen; simpl.
  - constructor.
  - destruct (existsb (String.eqb y) seen); [apply IH|].
    constructor; [|apply IH].
    rewrite setOf_In. intros [_ H]. apply H. now left.
Qed.

(** The distinct values of two arrays with the same elements are the same
    up to order. *)
Lemma setOf_perm (l l' : list string) :
  Permutation l l' -> Permutation (setOf [] l) (setOf [] l').
Proof.
  intros HP. apply NoDup_Permutation; try apply setOf_NoDup.
  intros x. rewrite !setOf_In. split; intros [H Hn]; split; try exact Hn.
  - eapply Permutation_in; eassumption.
  - eapply Permutation_in; [apply Permutation_sym|]; eassumption.
Qed.

Lemma ascii_compare_trans (a b c : ascii) :
  Ascii.compare a b <> Gt -> Ascii.compare b c <> Gt ->
  Ascii.compare a c <> Gt /\
  (Ascii.compare a c = Eq ->
   Ascii.compare a b = Eq /\ Ascii.compare b c = Eq).
Proof.
  unfold Ascii.compare.
  generalize (N_of_ascii a) (N_of_ascii b) (N_of_ascii c). intros x y z.
  rewrite !N.compare_eq_iff.
  change ((x ?= y)%N <> Gt) with (x <= y)%N.
  change ((y ?= z)%N <> Gt) with (y <= z)%N.
  change ((x ?= z)%N <> Gt) with (x <= z)%N.
  lia.
Qed.

Lemma string_compare_trans (s1 : string) :
  forall s2 s3,
    String.compare s1 s2 <> Gt -> String.compare s2 s3 <> Gt ->
    String.compare s1 s3 <> Gt.
Proof.
  induction s1 as [|a s1 IH]; intros [|b s2] [|c s3]; simpl;
    try congruence.
  intros H12 H23.
  destruct (Ascii.compare a b) eqn:Eab; try congruence;
    destruct (Ascii.compare b c) eqn:Ebc; try congruence;
    destruct (ascii_compare_trans a b c) as [Hac Heq];
    try (rewrite Eab; congruence); try (rewrite Ebc; congruence);
    destruct (Ascii.compare a c) eqn:Eac; try congruence;
    try (destruct (Heq eq_refl); congruence).
  now apply IH with s2.
Qed.

Lemma defaultLe_trans (a b c : string) :
  defaultLe a b = true -> defaultLe b c = true -> defaultLe a c = true.
Proof.
  unfold defaultLe, String.leb. intros H1 H2.
  pose proof (string_compare_trans a b c) as H.
  destruct (String.compare a b); try discriminate;
    destruct (String.compare b c); try discriminate;
    destruct (String.compare a c); try reflexivity;
    exfalso; apply H; congruence.
Qed.

Lemma defaultLe_total (a b : string) :
  defaultLe a b = true \/ defaultLe b a = true.
Proof. apply String.leb_total. Qed.

(** The sorted distinct values depend only on the elements. *)
Lemma sorted_set_perm (l l' : list string) :
  Permutation l l' ->
  sort defaultLe (setOf [] l) = sort defaultLe (setOf [] l').
Proof.
  intros HP. apply sort_perm_eq.
  - apply defaultLe_total.
  - apply defaultLe_trans.
  - now apply setOf_perm.
  - intros a b _ _. apply String.leb_antisym.
Qed.

(** ** Order by rating *)

Lemma byRatingDesc_iff (a b : Movie) :
  byRatingDesc a b = true <-> (rating b <= rating a)%Q.
Proof.
  unfold byRatingDesc. rewrite Qle_bool_iff. split; intros H; lra.
Qed.

Lemma byRatingDesc_total (a b : Movie) :
  byRatingDesc a b = true \/ byRatingDesc b a = true.
Proof.
  rewrite !byRatingDesc_iff.
  destruct (Qlt_le_dec (rating a) (rating b)) as [H|H]; [right|left]; lra.
Qed.

Lemma byRatingDesc_trans (a b c : Movie) :
  byRatingDesc a b = true -> byRatingDesc b c = true ->
  byRatingDesc a c = true.
Proof. rewrite !byRatingDesc_iff. intros; lra. Qed.

Lemma sort_descending (l : list Movie) :
  descendingByRating (sort byRatingDesc l).
Proof.
  unfold descendingByRating.
  eapply StronglySorted_ind with
    (P := StronglySorted (fun a b => (rating b <= rating a)%Q)).
  - constructor.
  - intros a l0 _ IH F. constructor; [exact IH|].
    eapply Forall_impl; [|exact F].
    intros b Hb. apply byRatingDesc_iff. exact Hb.
  - apply sort_sorted; [apply byRatingDesc_total | apply byRatingDesc_trans].
Qed.

Lemma descending_firstn (n : nat) (l : list Movie) :
  descendingByRating l -> descendingByRating (firstn n l).
Proof.
  unfold descendingByRating. intros H. revert n.
  induction H as [|a l Hs IH F]; intros [|n]; simpl; try constructor.
  - apply IH.
  - rewrite Forall_forall in *. intros x Hx. apply F.
    rewrite <- (firstn_skipn n l). apply in_or_app. now left.
Qed.

(* ------------------------------------------------------------------ *)
(** ** The store as seen by one handler *)

Lemma executeQuery_down {R : Type} (q : Query R) (s : Store) :
  down s (calls s) = true ->
  executeQuery q s = (None, mkStore (table s) (down s) (S (calls s))).
Proof. intros H. unfold executeQuery. now rewrite H. Qed.

Lemma executeQuery_up {R : Type} (q : Query R) (s : Store) :
  down s (calls s) = false ->
  executeQuery q s =
  match SQL.run q (table s) with
  | Some (r, t') => (Some r, mkStore t' (down s) (S (calls s)))
  | None => (None, mkStore (table s) (down s) (S (calls s)))
  end.
Proof. intros H. unfold executeQuery. now rewrite H. Qed.

Lemma filter_nil_not_exists {A : Type} (f : A -> bool) (l : list A) :
  existsb f l = false -> filter f l = [].
Proof.
  induction l as [|x l IH]; simpl; [reflexivity|].
  destruct (f x); simpl; [discriminate | exact IH].
Qed.

(** [GET /api/movies] computes its answer in memory when the store is not
    reached or its table is empty. *)
Lemma getMovies_fallback (q : ListParams) (w : World) :
  storeDown w \/ SQL.rows (table (store w)) = [] ->
  fst (getMovies q w) =
  json (MoviesPage (SeedObjects (inMemoryPage q (movies w)))
          (length (inMemoryPage q (movies w)))
          (floorDivPlus1 (parsedOr 0 (q_offset q)) (parsedOr 20 (q_limit q)))
          (toJson (parsedOr 20 (q_limit q)))).
Proof.
  intros H. unfold getMovies.
  destruct (down (store w) (calls (store w))) eqn:D.
  - rewrite executeQuery_down by exact D. reflexivity.
  - destruct H as [H|H]; [unfold storeDown in H; congruence|].
    rewrite executeQuery_up by exact D. simpl.
    unfold SQL.orderByRatingDesc. rewrite H. reflexivity.
Qed.

(** ** The sample data *)

Lemma seed_ratings_distinct (S3_BUCKET : string) (a b : Movie) :
  In a (movies_literal S3_BUCKET) -> In b (movies_literal S3_BUCKET) ->
  byRatingDesc a b = true -> byRatingDesc b a = true -> a = b.
Proof.
  intros Ha Hb. simpl in Ha, Hb.
  repeat (destruct Ha as [<-|Ha]; [|]); try contradiction;
    repeat (destruct Hb as [<-|Hb]; [|]); try contradiction;
    intros H1 H2; try reflexivity;
    (vm_compute in H1; vm_compute in H2; discriminate).
Qed.

Lemma seedByRating_ids (S3_BUCKET : string) :
  map id (seedByRating S3_BUCKET) = [1; 3; 5; 2; 6; 4].
Proof. reflexivity. Qed.

(** Whatever the order of the array, sorting it gives the same array. *)
Lemma sort_seedState (S3_BUCKET : string) (w : World) :
  seedState S3_BUCKET w ->
  sort byRatingDesc (movies w) = seedByRating S3_BUCKET.
Proof.
  intros H. apply sort_perm_eq.
  - apply byRatingDesc_total.
  - apply byRatingDesc_trans.
  - exact H.
  - apply seed_ratings_distinct.
Qed.

Lemma startOffline_seedState (S3_BUCKET : string) :
  seedState S3_BUCKET (startOffline S3_BUCKET).
Proof. apply Permutation_refl. Qed.

Lemma startOffline_down (S3_BUCKET : string) :
  storeDown (startOffline S3_BUCKET).
Proof. reflexivity. Qed.

(* ------------------------------------------------------------------ *)
(** ** Properties of the catalogue operations *)

(** C1 (List is ordered descending by rating, also when recomputed over
    the sample data): the in-memory branch of [GET /api/movies] filters and
    slices the array but never sorts it. With no database and no filter the
    response lists the six sample movies in the order of the array literal,
    ratings 4.8, 4.5, 4.7, 4.2, 4.6, 4.4, which is not descending. *)
Theorem list_fallback_keeps_array_order (S3_BUCKET : string) :
  fst (getMovies (mkListParams None None None None) (startOffline S3_BUCKET))
  = json (MoviesPage (SeedObjects (movies_literal S3_BUCKET)) 6
            (Some 1) (Some 20))
  /\ map rating (movies_literal S3_BUCKET)
     = [4.8; 4.5; 4.7; 4.2; 4.6; 4.4]%Q
  /\ ~ descendingByRating (movies_literal S3_BUCKET).
Proof.
  split; [reflexivity|]. split; [reflexivity|].
  intros H. apply StronglySorted_inv in H. destruct H as [H _].
  apply StronglySorted_inv in H. destruct H as [_ F].
  apply Forall_inv in F. vm_compute in F. now apply F.
Qed.

(** C2, as stated, fails: the store is reached and holds no row of id 1,
    and [GET /api/movies/1] answers 200 with the sample movie of id 1
    instead of 404. *)
Lemma getById_store_miss_serves_seed :
  storeUp storeWithoutId1
  /\ holdsId storeWithoutId1 (parseInt "1") = false
  /\ fst (getMovie "1" storeWithoutId1)
     <> mkResponse 404 (Error "Movie not found")
  /\ exists m, fst (getMovie "1" storeWithoutId1) = json (SeedMovie m)
               /\ In m (movies storeWithoutId1)
               /\ title m = "Quantum Nexus".
Proof.
  split; [reflexivity|]. split; [reflexivity|]. split.
  - vm_compute. discriminate.
  - eexists. split; [reflexivity|]. split; [now left | reflexivity].
Qed.

(** C2, amended (GetById consults the sample data whenever the store
    lookup yields no row): when the store is not reached, or is reached and
    holds no row with the id, [GET /api/movies/:id] answers with the sample
    movie of that id if the array has one, and with 404 otherwise. *)
Theorem getById_falls_back_on_any_miss (idParam : string) (w : World) :
  storeDown w \/ (storeUp w /\ holdsId w (parseInt idParam) = false) ->
  fst (getMovie idParam w) =
  match find (idIs (parseInt idParam)) (movies w) with
  | Some movie => json (SeedMovie movie)
  | None => mkResponse 404 (Error "Movie not found")
  end.
Proof.
  intros H. unfold getMovie.
  destruct H as [D|[U Hno]].
  - rewrite executeQuery_down by exact D.
    now destruct (find _ (movies w)).
  - rewrite executeQuery_up by exact U. simpl.
    rewrite (filter_nil_not_exists _ _ Hno).
    now destruct (find _ (movies w)).
Qed.

Lemma getById_falls_back_on_any_miss_witness :
  (storeDown storeWithoutId1
   \/ (storeUp storeWithoutId1
       /\ holdsId storeWithoutId1 (parseInt "1") = false))
  /\ fst (getMovie "1" storeWithoutId1) =
     match find (idIs (parseInt "1")) (movies storeWithoutId1) with
     | Some movie => json (SeedMovie movie)
     | None => mkResponse 404 (Error "Movie not found")
     end.
Proof.
  assert (H : storeDown storeWithoutId1
              \/ (storeUp storeWithoutId1
                  /\ holdsId storeWithoutId1 (parseInt "1") = false)).
  { right. split; reflexivity. }
  split; [exact H|].
  exact (getById_falls_back_on_any_miss "1" storeWithoutId1 H).
Defined.

(** C3 (RecommendationsFor recomputes over the sample data when the store
    is unavailable): when the store is not reached, the handler of
    [GET /api/recommendations/:movieId] answers 404 on the failed lookup of
    the base movie, before its in-memory branch, for every id and limit. *)
Theorem recommendations_store_down_not_found
  (movieIdParam : string) (limitParam : option string) (w : World) :
  storeDown w ->
  fst (getRecommendations movieIdParam limitParam w)
  = mkResponse 404 (Error "Movie not found").
Proof.
  intros D. unfold getRecommendations.
  rewrite executeQuery_down by exact D. reflexivity.
Qed.

Lemma recommendations_store_down_not_found_witness :
  storeDown (startOffline S3_BUCKET_default)
  /\ fst (getRecommendations "1" None (startOffline S3_BUCKET_default))
     = mkResponse 404 (Error "Movie not found").
Proof.
  split.
  - reflexivity.
  - apply (recommendations_store_down_not_found "1" None
             (startOffline S3_BUCKET_default)).
    reflexivity.
Defined.

(** The in-memory branch of the recommendations is reached only when the
    lookup of the base movie succeeds and the second statement fails; there
    the base movie 1 gets no recommendation, with its title and genre. *)
Lemma recommendations_in_memory_branch (S3_BUCKET : string) (r : Row) :
  let s := mkStore (SQL.mkTable [r] 2)
                   (fun n => match n with 0%nat => false | _ => true end) 0 in
  r_id r = 1 ->
  fst (getRecommendations "1" None (mkWorld (movies_literal S3_BUCKET) s))
  = json (Recommendations (SeedObjects []) "Quantum Nexus" (Some "sci-fi")).
Proof.
  intros s H. unfold getRecommendations, executeQuery. simpl.
  rewrite H. reflexivity.
Qed.

Lemma getMovie_keeps_array (idParam : string) (w : World) :
  movies (snd (getMovie idParam w)) = movies w.
Proof.
  unfold getMovie.
  destruct (executeQuery _ (store w)) as [[[|r rs]|] s1];
    try reflexivity; now destruct (find _ (movies w)).
Qed.

(** Every request other than a Trending request leaves the array as it
    is. *)
Lemma other_requests_keep_array (r : Request) (w : World) :
  (forall l, r <> Trending l) ->
  movies (snd (handle r w)) = movies w.
Proof.
  intros Hr. destruct r as [q|i|b|l|i l|]; simpl.
  - unfold getMovies.
    destruct (executeQuery SelectAllByRating (store w)) as [[[|r rs]|] s1];
      try reflexivity.
    now destruct (executeQuery _ s1) as [[f|] s2].
  - unfold getMovie.
    destruct (executeQuery _ (store w)) as [[[|r rs]|] s1];
      try reflexivity; now destruct (find _ (movies w)).
  - unfold postMovie.
    destruct (b_title b) as [t|], (b_genre b) as [g|]; try reflexivity.
    destruct (truthy t && truthy g); [|reflexivity].
    now destruct (executeQuery _ (store w)) as [[h|] s1].
  - exfalso. now apply (Hr l).
  - unfold getRecommendations.
    destruct (executeQuery _ (store w)) as [[[|r rs]|] s1]; try reflexivity.
    destruct (executeQuery _ s1) as [[recs|] s2]; try reflexivity.
    now destruct (find _ (movies w)).
  - unfold getGenres.
    now destruct (executeQuery _ (store w)) as [[rows|] s1].
Qed.

(** Every request leaves the array as it is. *)
Lemma requests_keep_array (r : Request) (w : World) :
  movies (snd (handle r w)) = movies w.
Proof.
  destruct r as [q|i|b|l|i l|];
    try (apply other_requests_keep_array; discriminate).
  apply getMovie_keeps_array.
Qed.

Lemma serveAll_keeps_array (rs : list Request) :
  forall w, movies (serveAll rs w) = movies w.
Proof.
  induction rs as [|r rs IH]; intros w; simpl; [reflexivity|].
  unfold serveAll in IH. rewrite IH. apply requests_keep_array.
Qed.




(** [GET /api/movies/trending] answers from the array when the store is
    not reached or its table is empty. *)
Lemma getTrending_fallback (limitParam : option string) (w : World) :
  storeDown w \/ SQL.rows (table (store w)) = [] ->
  getTrending limitParam w =
  (json (MovieArray
           (SeedObjects
              (slice (sort byRatingDesc (movies w)) (Int 0)
                 (parsedOrFalsy 6 limitParam)))),
   mkWorld (sort byRatingDesc (movies w))
           (mkStore (table (store w)) (down (store w))
                    (S (calls (store w))))).
Proof.
  intros H. unfold getTrending.
  destruct (down (store w) (calls (store w))) eqn:D.
  - rewrite executeQuery_down by exact D. reflexivity.
  - destruct H as [H|H]; [unfold storeDown in H; congruence|].
    rewrite executeQuery_up by exact D. cbn [SQL.run].
    unfold SQL.orderByRatingDesc. rewrite H. simpl sort.
    destruct (parsedOrFalsy 6 limitParam) as [|n]; simpl; [reflexivity|].
    destruct (0 <=? n); simpl; [|reflexivity].
    rewrite firstn_nil. destruct (table (store w)); reflexivity.
Qed.

(** The function registered for [/api/movies/trending], taken by itself:
    in its in-memory branch it answers with the slice from 0 to limit of
    the array sorted by descending rating: a prefix of the sorted array,
    its first n movies for a limit n >= 0 (6 when no limit is given), in
    descending order; on the six sample movies, in any order, limit 3 gives
    Quantum Nexus, The Last Symphony and Digital Phantom. No request
    reaches this function (see [handle]). *)
Theorem trending_over_seed
  (S3_BUCKET : string) (limitParam : option string) (w : World) :
  storeDown w \/ SQL.rows (table (store w)) = [] ->
  exists l,
    fst (getTrending limitParam w) = json (MovieArray (SeedObjects l))
    /\ l = slice (sort byRatingDesc (movies w)) (Int 0)
             (parsedOrFalsy 6 limitParam)
    /\ descendingByRating (sort byRatingDesc (movies w))
    /\ Permutation (sort byRatingDesc (movies w)) (movies w)
    /\ descendingByRating l
    /\ (exists n, l = firstn n (sort byRatingDesc (movies w)))
    /\ (forall n, parsedOrFalsy 6 limitParam = Int n -> 0 <= n ->
                  l = firstn (Z.to_nat n) (sort byRatingDesc (movies w)))
    /\ (limitParam = None -> l = firstn 6 (sort byRatingDesc (movies w)))
    /\ (seedState S3_BUCKET w -> limitParam = Some "3" ->
        map title l
        = ["Quantum Nexus"; "The Last Symphony"; "Digital Phantom"]
        /\ map rating l = [4.8; 4.7; 4.6]%Q
        /\ map id l = [1; 3; 5]).
Proof.
  intros H. eexists. rewrite (getTrending_fallback _ _ H).
  split; [reflexivity|]. split; [reflexivity|].
  split; [apply sort_descending|].
  split; [apply sort_perm|].
  destruct (slice_0_prefix (sort byRatingDesc (movies w))
              (parsedOrFalsy 6 limitParam)) as [n Hn].
  split; [rewrite Hn; apply descending_firstn, sort_descending|].
  split; [now exists n|].
  split; [intros k -> Hk; now apply slice_from_0|].
  split; [intros ->; now apply (slice_from_0 _ 6)|].
  intros Hs ->. rewrite (sort_seedState _ _ Hs). now vm_compute.
Qed.

Lemma trending_over_seed_witness :
  exists l,
    fst (getTrending (Some "3") (startOffline S3_BUCKET_default))
    = json (MovieArray (SeedObjects l))
    /\ map title l
       = ["Quantum Nexus"; "The Last Symphony"; "Digital Phantom"]
    /\ map rating l = [4.8; 4.7; 4.6]%Q.
Proof.
  destruct (trending_over_seed S3_BUCKET_default (Some "3")
              (startOffline S3_BUCKET_default) (or_introl eq_refl))
    as [l [H1 [_ [_ [_ [_ [_ [_ [_ H9]]]]]]]]].
  exists l. split; [exact H1|].
  destruct (H9 (Permutation_refl _) eq_refl) as [Ht [Hr _]].
  now split.
Defined.

(** C7 (DistinctGenres over the sample data is exactly action, comedy,
    drama, sci-fi, thriller): with the store not reached and the array
    holding the six sample movies in any order, [GET /api/genres] answers
    with these five genres in this order, without duplicate. *)
Theorem genres_over_seed (S3_BUCKET : string) (w : World) :
  seedState S3_BUCKET w -> storeDown w ->
  fst (getGenres w)
  = json (Genres (map Some ["action"; "comedy"; "drama"; "sci-fi";
                            "thriller"]))
  /\ NoDup ["action"; "comedy"; "drama"; "sci-fi"; "thriller"]
  /\ StronglySorted (fun a b => String.ltb a b = true)
       ["action"; "comedy"; "drama"; "sci-fi"; "thriller"]
  /\ count_occ string_dec (map genre (movies w)) "action" = 2%nat.
Proof.
  intros Hs D. split; [|split; [|split]].
  - unfold getGenres. rewrite executeQuery_down by exact D. simpl.
    rewrite (sorted_set_perm _ (map genre (movies_literal S3_BUCKET)))
      by (apply Permutation_map; exact Hs).
    reflexivity.
  - repeat constructor; simpl; intuition discriminate.
  - repeat constructor.
  - pose proof (Permutation_map genre Hs) as P.
    rewrite (Permutation_count_occ string_dec) in P.
    rewrite P. reflexivity.
Qed.

Lemma genres_over_seed_witness :
  seedState S3_BUCKET_default (startOffline S3_BUCKET_default)
  /\ storeDown (startOffline S3_BUCKET_default)
  /\ fst (getGenres (startOffline S3_BUCKET_default))
     = json (Genres (map Some ["action"; "comedy"; "drama"; "sci-fi";
                               "thriller"])).
Proof.
  split; [apply Permutation_refl|]. split; [reflexivity|].
  apply (genres_over_seed S3_BUCKET_default (startOffline S3_BUCKET_default)).
  - apply Permutation_refl.
  - reflexivity.
Defined.

Lemma truthy_iff (s : string) : truthy s = true <-> s <> EmptyString.
Proof. destruct s; simpl; split; congruence. Qed.

Lemma filterGenre_In (g : option string) (l : list Movie) (m : Movie) :
  In m (filterGenre g l) <->
  In m l
  /\ (forall s, g = Some s -> s <> EmptyString -> s <> "all" ->
                genre m = s).
Proof.
  destruct g as [s|]; simpl.
  - destruct (truthy s) eqn:T; simpl.
    + apply truthy_iff in T.
      destruct (String.eqb_spec s "all") as [E|E]; simpl.
      * split; [|tauto]. intros H. split; [exact H|].
        intros s' [= <-]. congruence.
      * rewrite filter_In, String.eqb_eq. split.
        -- intros [H1 H2]. split; [exact H1|]. now intros s' [= <-].
        -- intros [H1 H2]. split; [exact H1|]. now apply H2.
    + assert (s = EmptyString) by (destruct s; [reflexivity | discriminate]).
      split; [|tauto]. intros H'. split; [exact H'|].
      intros s' [= <-]. congruence.
  - split; [|tauto]. intros H. split; [exact H|]. discriminate.
Qed.

Lemma toLowerCase_truthy (t : string) :
  truthy (toLowerCase t) = truthy t.
Proof. now destruct t. Qed.

Lemma lowerChar_code (a : ascii) :
  nat_of_ascii (lowerChar a)
  = if andb (Nat.leb 65 (nat_of_ascii a)) (Nat.leb (nat_of_ascii a) 90)
    then (nat_of_ascii a + 32)%nat else nat_of_ascii a.
Proof.
  unfold lowerChar.
  destruct (andb (Nat.leb 65 (nat_of_ascii a)) (Nat.leb (nat_of_ascii a) 90))
    eqn:U; [|reflexivity].
  apply andb_true_iff in U. destruct U as [U1 U2].
  apply Nat.leb_le in U1, U2. apply nat_ascii_embedding. lia.
Qed.

Lemma nat_of_ascii_inj (a b : ascii) :
  nat_of_ascii a = nat_of_ascii b -> a = b.
Proof.
  intros H. rewrite <- (ascii_nat_embedding a), <- (ascii_nat_embedding b).
  now rewrite H.
Qed.

(** Two characters have the same lower-case form exactly when they are the
    same up to the case of a letter. *)
Lemma lowerChar_eq_iff (a b : ascii) :
  lowerChar a = lowerChar b <-> sameLetter a b.
Proof.
  unfold sameLetter. split.
  - intros H. apply (f_equal nat_of_ascii) in H.
    rewrite !lowerChar_code in H.
    destruct (Nat.leb_spec 65 (nat_of_ascii a)) as [A1|A1];
      destruct (Nat.leb_spec (nat_of_ascii a) 90) as [A2|A2];
      destruct (Nat.leb_spec 65 (nat_of_ascii b)) as [B1|B1];
      destruct (Nat.leb_spec (nat_of_ascii b) 90) as [B2|B2];
      cbn [andb] in H;
      try (left; apply nat_of_ascii_inj; lia);
      try (right; left; lia); try (right; right; lia).
  - intros [->|[[U E]|[U E]]]; [reflexivity| |];
      apply nat_of_ascii_inj; rewrite !lowerChar_code.
    + replace (Nat.leb 65 (nat_of_ascii a)) with true
        by (symmetry; apply Nat.leb_le; lia).
      replace (Nat.leb (nat_of_ascii a) 90) with true
        by (symmetry; apply Nat.leb_le; lia).
      replace (Nat.leb (nat_of_ascii b) 90) with false
        by (symmetry; apply Nat.leb_gt; lia).
      rewrite andb_false_r. cbn [andb]. lia.
    + replace (Nat.leb 65 (nat_of_ascii b)) with true
        by (symmetry; apply Nat.leb_le; lia).
      replace (Nat.leb (nat_of_ascii b) 90) with true
        by (symmetry; apply Nat.leb_le; lia).
      replace (Nat.leb (nat_of_ascii a) 90) with false
        by (symmetry; apply Nat.leb_gt; lia).
      rewrite andb_false_r. cbn [andb]. lia.
Qed.

Lemma toLowerCase_eq_iff (x : string) :
  forall t, toLowerCase x = toLowerCase t <-> sameUpToCase x t.
Proof.
  induction x as [|a x IH]; intros [|b t]; simpl.
  - split; [constructor | reflexivity].
  - split; [discriminate | inversion 1].
  - split; [discriminate | inversion 1].
  - split.
    + intros H. injection H as Hc Hs.
      constructor; [now apply lowerChar_eq_iff | now apply IH].
    + inversion 1; subst. f_equal; [now apply lowerChar_eq_iff|].
      now apply IH.
Qed.

Lemma toLowerCase_app (u v : string) :
  toLowerCase (u ++ v) = toLowerCase u ++ toLowerCase v.
Proof. induction u as [|c u IH]; simpl; [reflexivity | now rewrite IH]. Qed.

Lemma toLowerCase_split (u : string) :
  forall s v,
    toLowerCase s = u ++ v ->
    exists s1 s2, s = s1 ++ s2 /\ toLowerCase s1 = u /\ toLowerCase s2 = v.
Proof.
  induction u as [|c u IH]; intros s v H.
  - exists EmptyString, s. now repeat split.
  - destruct s as [|d s]; [discriminate|]. simpl in H.
    injection H as Hc Hs. destruct (IH s v Hs) as [s1 [s2 [E [E1 E2]]]].
    exists (String d s1), s2. simpl. subst. now repeat split.
Qed.

(** The test of the code, [includes] on the lower-case forms, decides
    containment up to letter case. *)
Lemma includes_toLowerCase_iff (s t : string) :
  includes (toLowerCase s) (toLowerCase t) = true
  <-> containsIgnoringCase s t.
Proof.
  rewrite includes_spec. unfold containsIgnoringCase. split.
  - intros [u [v H]].
    destruct (toLowerCase_split u s _ H) as [pre [rest [E [E1 E2]]]].
    destruct (toLowerCase_split (toLowerCase t) rest v E2)
      as [x [post [E' [Ex Epost]]]].
    exists pre, x, post. split; [now subst|].
    now apply toLowerCase_eq_iff.
  - intros [pre [x [post [E Hx]]]]. apply toLowerCase_eq_iff in Hx.
    exists (toLowerCase pre), (toLowerCase post).
    now rewrite E, !toLowerCase_app, Hx.
Qed.

Lemma matchesSearch_iff (t : string) (m : Movie) :
  matchesSearch (toLowerCase t) m = true <->
  containsIgnoringCase (title m) t \/ containsIgnoringCase (description m) t.
Proof.
  unfold matchesSearch.
  now rewrite orb_true_iff, !includes_toLowerCase_iff.
Qed.

Lemma containsIgnoringCase_empty (s : string) :
  containsIgnoringCase s EmptyString.
Proof. exists EmptyString, EmptyString, s. split; [reflexivity | constructor]. Qed.

Lemma filterSearch_In (s : option string) (l : list Movie) (m : Movie) :
  In m (filterSearch s l) <->
  In m l /\ (forall t, s = Some t ->
                       containsIgnoringCase (title m) t
                       \/ containsIgnoringCase (description m) t).
Proof.
  destruct s as [t|]; simpl.
  - destruct (truthy t) eqn:T.
    + rewrite filter_In, matchesSearch_iff. split.
      * intros [H1 H2]. split; [exact H1|]. now intros t' [= <-].
      * intros [H1 H2]. split; [exact H1|]. now apply H2.
    + assert (t = EmptyString) by (destruct t; [reflexivity | discriminate]).
      subst t.
      split; [|tauto]. intros H. split; [exact H|].
      intros t' [= <-]. left. apply containsIgnoringCase_empty.
  - split; [|tauto]. intros H. split; [exact H|]. discriminate.
Qed.

Lemma inMemoryFiltered_length (q : ListParams) (l : list Movie) :
  (length (inMemoryFiltered q l) <= length l)%nat.
Proof.
  unfold inMemoryFiltered, filterSearch, filterGenre.
  assert (G : (length (match q_genre q with
                       | Some s =>
                           if genreGiven (q_genre q)
                           then filter (fun m => String.eqb (genre m) s) l
                           else l
                       | None => l
                       end) <= length l)%nat).
  { destruct (q_genre q) as [g|]; [|lia].
    destruct (genreGiven (Some g)); [apply filter_length_le | lia]. }
  destruct (q_search q) as [t|]; [|exact G].
  destruct (truthy t); [|exact G].
  eapply Nat.le_trans; [apply filter_length_le | exact G].
Qed.

(** C8 (the in-memory filter of List keeps a movie iff its genre matches
    exactly when a genre other than "all" is given, and its title or
    description contains the search term, case ignored, when a search term
    is given; search "galaxy" gives exactly Cosmic Comedy Club): over the
    six sample movies, in any order, and for a search term of ASCII
    characters, the filtered array of the in-memory branch of
    [GET /api/movies] holds exactly the movies of the array that pass both
    tests, where a genre counts as given when it is a non-empty string and
    containment is up to the case of the letters A to Z; with no limit and
    no offset the response lists exactly this filtered array; and the
    search "galaxy", in any letter case and with no other parameter,
    answers with the single movie Cosmic Comedy Club. *)
Theorem list_seed_filter (S3_BUCKET : string) (q : ListParams) (w : World) :
  seedState S3_BUCKET w ->
  (forall t, q_search q = Some t -> asciiOnly t) ->
  (forall m,
     In m (inMemoryFiltered q (movies w)) <->
     In m (movies w)
     /\ (forall g, q_genre q = Some g -> g <> EmptyString -> g <> "all" ->
                   genre m = g)
     /\ (forall t, q_search q = Some t ->
                   containsIgnoringCase (title m) t
                   \/ containsIgnoringCase (description m) t))
  /\ (storeDown w \/ SQL.rows (table (store w)) = [] ->
      q_limit q = None -> q_offset q = None ->
      fst (getMovies q w)
      = mkResponse 200
          (MoviesPage (SeedObjects (inMemoryFiltered q (movies w)))
             (length (inMemoryFiltered q (movies w))) (Some 1) (Some 20)))
  /\ (storeDown w \/ SQL.rows (table (store w)) = [] ->
      forall t,
        sameUpToCase t "galaxy" ->
        q = mkListParams None (Some t) None None ->
        exists m,
          fst (getMovies q w)
          = mkResponse 200
              (MoviesPage (SeedObjects [m]) 1 (Some 1) (Some 20))
          /\ In m (movies_literal S3_BUCKET)
          /\ title m = "Cosmic Comedy Club").
Proof.
  intros Hs _.
  assert (Hdef : storeDown w \/ SQL.rows (table (store w)) = [] ->
            q_limit q = None -> q_offset q = None ->
            fst (getMovies q w)
            = mkResponse 200
                (MoviesPage (SeedObjects (inMemoryFiltered q (movies w)))
                   (length (inMemoryFiltered q (movies w)))
                   (Some 1) (Some 20))).
  { intros H Hl Ho. rewrite (getMovies_fallback q w H).
    unfold inMemoryPage. rewrite Hl, Ho. cbn [parsedOr add].
    rewrite (slice_from_0 _ 20) by lia.
    rewrite firstn_all2; [reflexivity|].
    pose proof (inMemoryFiltered_length q (movies w)) as L.
    pose proof (Permutation_length Hs) as P. simpl in P. simpl. lia. }
  split; [|split; [exact Hdef|]].
  - intros m. unfold inMemoryFiltered.
    rewrite filterSearch_In, filterGenre_In. tauto.
  - intros H t Ht ->. rewrite (Hdef H eq_refl eq_refl).
    unfold inMemoryFiltered. cbn [q_search q_genre].
    assert (Et : toLowerCase t = "galaxy")
      by (apply toLowerCase_eq_iff in Ht; exact Ht).
    assert (Tt : truthy t = true)
      by (rewrite <- toLowerCase_truthy, Et; reflexivity).
    change (filterGenre None (movies w)) with (movies w).
    unfold filterSearch. rewrite Tt, Et.
    pose proof (filter_perm (matchesSearch "galaxy") _ _ Hs) as P.
    assert (E : exists m,
               filter (matchesSearch "galaxy") (movies_literal S3_BUCKET)
               = [m]
               /\ In m (movies_literal S3_BUCKET)
               /\ title m = "Cosmic Comedy Club").
    { eexists. split; [reflexivity|]. split; [|reflexivity].
      simpl. tauto. }
    destruct E as [m [E [Hin Hti]]]. rewrite E in P.
    apply Permutation_sym, Permutation_length_1_inv in P.
    exists m. rewrite P. split; [reflexivity|]. now split.
Qed.

Lemma list_seed_filter_witness :
  exists m,
    fst (getMovies (mkListParams None (Some "GaLAXY") None None)
           (startOffline S3_BUCKET_default))
    = mkResponse 200 (MoviesPage (SeedObjects [m]) 1 (Some 1) (Some 20))
    /\ title m = "Cosmic Comedy Club".
Proof.
  assert (A : forall t,
            q_search (mkListParams None (Some "GaLAXY") None None) = Some t ->
            asciiOnly t).
  { intros t [= <-]. repeat constructor. }
  assert (S : sameUpToCase "GaLAXY" "galaxy").
  { repeat (constructor;
            [first [ left; reflexivity
                   | right; left; split; [split|]; vm_compute;
                     repeat constructor ]|]).
    constructor. }
  destruct (list_seed_filter S3_BUCKET_default
              (mkListParams None (Some "GaLAXY") None None)
              (startOffline S3_BUCKET_default)
              (Permutation_refl _) A) as [_ [_ H]].
  destruct (H (or_introl eq_refl) "GaLAXY" S eq_refl) as [m [H1 [_ H2]]].
  exists m. now split.
Defined.

(** C9 (Create fails with a validation error when title or genre is
    empty, with no store mutation; with both given and the store
    unreachable it fails with a store error and writes nothing in memory):
    [POST /api/movies] with a missing or empty title or genre answers 400
    and leaves the whole state, store included, as it was, without calling
    [executeQuery]; with both present and the store not reached it answers
    500, and neither the array [movies] nor the table changes. *)
Theorem create_validation_and_store_error (b : MovieBody) (w : World) :
  (present (b_title b) = false \/ present (b_genre b) = false ->
   postMovie b w
   = (mkResponse 400 (Error "Title and genre are required"), w))
  /\ (present (b_title b) = true -> present (b_genre b) = true ->
      storeDown w ->
      fst (postMovie b w)
      = mkResponse 500 (Error "Failed to add movie to database")
      /\ movies (snd (postMovie b w)) = movies w
      /\ table (store (snd (postMovie b w))) = table (store w)).
Proof.
  unfold postMovie, present.
  destruct (b_title b) as [t|], (b_genre b) as [g|]; simpl.
  - destruct (truthy t), (truthy g); simpl; split;
      try (intros [H|H]; discriminate); try reflexivity;
      try discriminate.
    intros _ _ D. rewrite executeQuery_down by exact D. simpl. tauto.
  - split; [reflexivity | discriminate].
  - split; [reflexivity | discriminate].
  - split; [reflexivity | discriminate].
Qed.

Lemma create_validation_and_store_error_witness :
  postMovie bodyNoTitle storeWithoutId1
  = (mkResponse 400 (Error "Title and genre are required"), storeWithoutId1)
  /\ fst (postMovie bodyComplete (startOffline S3_BUCKET_default))
     = mkResponse 500 (Error "Failed to add movie to database").
Proof.
  split.
  - apply (proj1 (create_validation_and_store_error bodyNoTitle
                    storeWithoutId1)).
    left. reflexivity.
  - apply (proj2 (create_validation_and_store_error bodyComplete
                    (startOffline S3_BUCKET_default)));
      reflexivity.
Defined.

(** With both fields given and the store reached, the row is appended to
    the table under the next id and the array stays as it is. *)
Lemma create_inserts_in_store :
  postMovie bodyComplete storeWithoutId1
  = (mkResponse 201 (Created "Movie added successfully" 8),
     mkWorld (movies storeWithoutId1)
       (mkStore
          (SQL.mkTable
             [otherRow;
              mkRow 8 "Harbour Lights" (Some 2025) (Some "drama")
                (Some 4.1%Q) None None None None] 9)
          (fun _ => false) 1)).
Proof. reflexivity. Qed.

(** C10 (the sample data are six records with the distinct ids 1 to 6,
    each with a non-empty title and genre and a rating with one decimal
    place, and every operation keeps these six records as the elements of
    the array): the array literal has these properties, and whatever the
    request and the state of the store, the array after the request is a
    rearrangement of the array before it, so of the six sample movies. *)
Theorem seed_set_invariant (S3_BUCKET : string) :
  length (movies_literal S3_BUCKET) = 6%nat
  /\ map id (movies_literal S3_BUCKET) = [1; 2; 3; 4; 5; 6]
  /\ NoDup (map id (movies_literal S3_BUCKET))
  /\ Forall (fun m => title m <> EmptyString /\ genre m <> EmptyString
                      /\ exists k : Z, (rating m * 10 == inject_Z k)%Q)
            (movies_literal S3_BUCKET)
  /\ (forall r w, Permutation (movies (snd (handle r w))) (movies w))
  /\ (forall r w, seedState S3_BUCKET w ->
                  seedState S3_BUCKET (snd (handle r w))).
Proof.
  assert (Hperm : forall r w,
            Permutation (movies (snd (handle r w))) (movies w)).
  { intros r w. rewrite requests_keep_array. apply Permutation_refl. }
  split; [reflexivity|]. split; [reflexivity|].
  split.
  { simpl. repeat constructor; simpl; intuition discriminate. }
  split.
  { repeat constructor; try discriminate.
    - now exists 48.
    - now exists 45.
    - now exists 47.
    - now exists 42.
    - now exists 46.
    - now exists 44. }
  split; [exact Hperm|].
  intros r w Hs. unfold seedState in *.
  eapply perm_trans; [apply Hperm | exact Hs].
Qed.

Lemma seed_set_invariant_witness :
  seedState S3_BUCKET_default (startOffline S3_BUCKET_default)
  /\ seedState S3_BUCKET_default
       (snd (handle (Trending None) (startOffline S3_BUCKET_default))).
Proof.
  split; [apply Permutation_refl|].
  apply (proj2 (proj2 (proj2 (proj2 (proj2
           (seed_set_invariant S3_BUCKET_default)))))).
  apply Permutation_refl.
Defined.

(* ------------------------------------------------------------------ *)
(** ** Further properties of the handlers *)

(** *** Lists *)

Lemma Subsequence_refl {A : Type} (l : list A) : Subsequence l l.
Proof. induction l; constructor; assumption. Qed.

Lemma Subsequence_nil {A : Type} (l : list A) : Subsequence [] l.
Proof. induction l; constructor; assumption. Qed.

Lemma Subsequence_trans {A : Type} (l2 l3 : list A) :
  Subsequence l2 l3 -> forall l1, Subsequence l1 l2 -> Subsequence l1 l3.
Proof.
  induction 1 as [|x l2 l3 _ IH|x l2 l3 _ IH]; intros l1 H12.
  - exact H12.
  - constructor. now apply IH.
  - inversion H12; subst.
    + constructor. now apply IH.
    + apply sub_keep. now apply IH.
Qed.

Lemma Subsequence_filter {A : Type} (f : A -> bool) (l : list A) :
  Subsequence (filter f l) l.
Proof.
  induction l as [|x l IH]; simpl; [constructor|].
  destruct (f x); constructor; exact IH.
Qed.

Lemma Subsequence_skipn {A : Type} (n : nat) (l : list A) :
  Subsequence (skipn n l) l.
Proof.
  revert l. induction n as [|n IH]; intros [|x l]; simpl;
    try apply Subsequence_refl.
  constructor. apply IH.
Qed.

Lemma Subsequence_firstn {A : Type} (n : nat) (l : list A) :
  Subsequence (firstn n l) l.
Proof.
  revert l. induction n as [|n IH]; intros [|x l]; simpl;
    try apply Subsequence_nil.
  apply sub_keep, IH.
Qed.

Lemma Subsequence_slice {A : Type} (l : list A) (a b : JsInt) :
  Subsequence (slice l a b) l.
Proof.
  unfold slice.
  eapply Subsequence_trans; [apply Subsequence_skipn|].
  apply Subsequence_firstn.
Qed.

Lemma Subsequence_In {A : Type} (l l' : list A) :
  Subsequence l l' -> forall x, In x l -> In x l'.
Proof.
  induction 1; intros y Hy; simpl in *; intuition.
Qed.

Lemma Subsequence_sorted {A : Type} (R : A -> A -> Prop) (l l' : list A) :
  Subsequence l l' -> StronglySorted R l' -> StronglySorted R l.
Proof.
  induction 1 as [|x l l' Hs IH|x l l' Hs IH]; intros H.
  - constructor.
  - apply IH. now apply StronglySorted_inv in H.
  - apply StronglySorted_inv in H. destruct H as [H F].
    constructor; [now apply IH|].
    rewrite Forall_forall in *. intros y Hy. apply F.
    eapply Subsequence_In; eassumption.
Qed.

Lemma filterGenre_Subsequence (g : option string) (l : list Movie) :
  Subsequence (filterGenre g l) l.
Proof.
  unfold filterGenre. destruct g as [s|]; [|apply Subsequence_refl].
  destruct (genreGiven (Some s));
    [apply Subsequence_filter | apply Subsequence_refl].
Qed.

Lemma filterSearch_Subsequence (s : option string) (l : list Movie) :
  Subsequence (filterSearch s l) l.
Proof.
  unfold filterSearch. destruct s as [t|]; [|apply Subsequence_refl].
  destruct (truthy t); [apply Subsequence_filter | apply Subsequence_refl].
Qed.

Lemma inMemoryPage_Subsequence (q : ListParams) (l : list Movie) :
  Subsequence (inMemoryPage q l) l.
Proof.
  unfold inMemoryPage, inMemoryFiltered.
  eapply Subsequence_trans; [|apply Subsequence_slice].
  eapply Subsequence_trans; [apply filterGenre_Subsequence|].
  apply filterSearch_Subsequence.
Qed.

Lemma firstn_app_skipn {A : Type} (a b : nat) (l : list A) :
  (firstn a l ++ firstn b (skipn a l))%list = firstn (a + b) l.
Proof.
  revert l. induction a as [|a IH]; intros l; simpl; [reflexivity|].
  destruct l as [|x l]; simpl.
  - now rewrite firstn_nil.
  - f_equal. apply IH.
Qed.

Lemma skipn_skipn_add {A : Type} (a b : nat) (l : list A) :
  skipn b (skipn a l) = skipn (a + b) l.
Proof.
  revert l. induction a as [|a IH]; intros l; simpl; [reflexivity|].
  destruct l as [|x l]; simpl; [apply skipn_nil | apply IH].
Qed.

Lemma slice_append {A : Type} (l : list A) (o a b : Z) :
  0 <= o -> 0 <= a -> 0 <= b ->
  (slice l (Int o) (Int (o + a))
   ++ slice l (Int (o + a)) (Int (o + a + b)))%list
  = slice l (Int o) (Int (o + a + b)).
Proof.
  intros Ho Ha Hb. rewrite !slice_nonneg by lia.
  set (n := length l).
  set (i := Nat.min (Z.to_nat o) n).
  set (j := Nat.min (Z.to_nat (o + a)) n).
  set (k := Nat.min (Z.to_nat (o + a + b)) n).
  assert (Hij : (i <= j)%nat) by (unfold i, j; lia).
  assert (Hjk : (j <= k)%nat) by (unfold j, k; lia).
  assert (E : skipn j l = skipn (j - i) (skipn i l)).
  { rewrite skipn_skipn_add. f_equal. lia. }
  rewrite E, firstn_app_skipn. f_equal. lia.
Qed.

Lemma slice_NaN_end {A : Type} (l : list A) (a : JsInt) : slice l a NaN = [].
Proof.
  unfold slice. simpl toIntegerOrInfinity. now rewrite clampIndex_0.
Qed.

Lemma slice_size {A : Type} (l : list A) (o n : Z) :
  0 <= o -> 0 <= n ->
  (length (slice l (Int o) (Int (o + n))) <= Z.to_nat n)%nat
  /\ (o + n <= Z.of_nat (length l) ->
      length (slice l (Int o) (Int (o + n))) = Z.to_nat n).
Proof.
  intros Ho Hn. rewrite slice_nonneg by lia.
  rewrite length_firstn, length_skipn. split; lia.
Qed.

(** *** GET /api/movies *)

(** X1: a genre that is the empty string or the sentinel "all" is handled
    exactly like an absent genre, and an empty search string exactly like
    an absent one, in the store branch as in the in-memory branch: the
    response and the state afterwards are the same. *)
Theorem list_sentinels_are_absent (g s l o : option string) (w : World) :
  (g = Some EmptyString \/ g = Some "all" ->
   getMovies (mkListParams g s l o) w
   = getMovies (mkListParams None s l o) w)
  /\ (s = Some EmptyString ->
      getMovies (mkListParams g s l o) w
      = getMovies (mkListParams g None l o) w).
Proof.
  split.
  - intros [->| ->]; reflexivity.
  - intros ->. reflexivity.
Qed.

Lemma list_sentinels_are_absent_witness :
  getMovies (mkListParams (Some "all") (Some "neo") None None)
    storeWithoutId1
  = getMovies (mkListParams None (Some "neo") None None) storeWithoutId1
  /\ getMovies (mkListParams (Some "action") (Some EmptyString) None None)
       (startOffline S3_BUCKET_default)
     = getMovies (mkListParams (Some "action") None None None)
         (startOffline S3_BUCKET_default).
Proof.
  split.
  - apply (proj1 (list_sentinels_are_absent (Some "all") (Some "neo")
                    None None storeWithoutId1)).
    right. reflexivity.
  - apply (proj2 (list_sentinels_are_absent (Some "action")
                    (Some EmptyString) None None
                    (startOffline S3_BUCKET_default))).
    reflexivity.
Defined.

(** X2: in the in-memory branch the letter case of the search term does
    not matter: two terms with the same lower-case form give the same
    response. *)
Theorem list_search_ignores_case
  (g l o : option string) (t1 t2 : string) (w : World) :
  storeDown w \/ SQL.rows (table (store w)) = [] ->
  toLowerCase t1 = toLowerCase t2 ->
  fst (getMovies (mkListParams g (Some t1) l o) w)
  = fst (getMovies (mkListParams g (Some t2) l o) w).
Proof.
  intros H E. rewrite !(getMovies_fallback _ w H).
  unfold inMemoryPage, inMemoryFiltered. cbn [q_search q_genre q_limit q_offset].
  assert (F : forall ms, filterSearch (Some t1) ms = filterSearch (Some t2) ms).
  { intros ms. unfold filterSearch.
    rewrite <- (toLowerCase_truthy t1), <- (toLowerCase_truthy t2), E.
    reflexivity. }
  now rewrite F.
Qed.

Lemma list_search_ignores_case_witness :
  fst (getMovies (mkListParams None (Some "GaLaXy") None None)
         (startOffline S3_BUCKET_default))
  = fst (getMovies (mkListParams None (Some "galaxy") None None)
           (startOffline S3_BUCKET_default)).
Proof.
  apply (list_search_ignores_case None None None "GaLaXy" "galaxy"
           (startOffline S3_BUCKET_default)).
  - left. reflexivity.
  - reflexivity.
Defined.

(** X3: in the in-memory branch the returned movies are a subsequence of
    the array [movies]: each is an element of the array and they come in
    the order the array has at that moment, for every genre, search, limit
    and offset. *)
Theorem list_in_memory_keeps_array_order (q : ListParams) (w : World) :
  storeDown w \/ SQL.rows (table (store w)) = [] ->
  exists page,
    seedMoviesOf (fst (getMovies q w)) = Some page
    /\ Subsequence page (movies w)
    /\ (forall m, In m page -> In m (movies w)).
Proof.
  intros H. exists (inMemoryPage q (movies w)).
  rewrite (getMovies_fallback q w H).
  split; [reflexivity|].
  split; [apply inMemoryPage_Subsequence|].
  apply Subsequence_In, inMemoryPage_Subsequence.
Qed.

Lemma list_in_memory_keeps_array_order_witness :
  exists page,
    seedMoviesOf
      (fst (getMovies (mkListParams (Some "action") None None None)
              (startOffline S3_BUCKET_default))) = Some page
    /\ Subsequence page (movies (startOffline S3_BUCKET_default)).
Proof.
  destruct (list_in_memory_keeps_array_order
              (mkListParams (Some "action") None None None)
              (startOffline S3_BUCKET_default) (or_introl eq_refl))
    as [page [H1 [H2 _]]].
  exists page. now split.
Defined.

(** X4: in the in-memory branch, with a non-negative offset [o] and limit
    [n], the page holds at most [n] movies, and exactly [n] when the
    filtered array reaches up to [o + n]. *)
Theorem list_page_size (q : ListParams) (w : World) (o n : Z) :
  storeDown w \/ SQL.rows (table (store w)) = [] ->
  parsedOr 0 (q_offset q) = Int o -> parsedOr 20 (q_limit q) = Int n ->
  0 <= o -> 0 <= n ->
  exists page total page_no,
    fst (getMovies q w)
    = json (MoviesPage (SeedObjects page) total page_no (Some n))
    /\ total = length page
    /\ (total <= Z.to_nat n)%nat
    /\ (o + n <= Z.of_nat (length (inMemoryFiltered q (movies w))) ->
        total = Z.to_nat n).
Proof.
  intros H Ho Hn Po Pn. rewrite (getMovies_fallback q w H).
  unfold inMemoryPage. rewrite Ho, Hn. simpl add. simpl toJson.
  do 3 eexists. split; [reflexivity|]. split; [reflexivity|].
  apply slice_size; assumption.
Qed.

Lemma list_page_size_witness :
  exists page total page_no,
    fst (getMovies (mkListParams None None (Some "4") (Some "2"))
           (startOffline S3_BUCKET_default))
    = json (MoviesPage (SeedObjects page) total page_no (Some 4))
    /\ total = 4%nat.
Proof.
  destruct (list_page_size (mkListParams None None (Some "4") (Some "2"))
              (startOffline S3_BUCKET_default) 2 4
              (or_introl eq_refl) eq_refl eq_refl)
    as [page [total [pn [H1 [_ [_ H4]]]]]]; try discriminate.
  exists page, total, pn. split; [exact H1|].
  apply H4. vm_compute. discriminate.
Defined.

(** X5: in the in-memory branch consecutive pages join up: the page at
    offset [o] with limit [a] followed by the page at offset [o + a] with
    limit [b] is the page at offset [o] with limit [a + b], for the same
    genre and search. *)
Theorem list_pages_concatenate
  (g s l1 o1 l2 o2 l3 : option string) (w : World) (o a b : Z) :
  storeDown w \/ SQL.rows (table (store w)) = [] ->
  parsedOr 0 o1 = Int o -> parsedOr 20 l1 = Int a ->
  parsedOr 0 o2 = Int (o + a) -> parsedOr 20 l2 = Int b ->
  parsedOr 20 l3 = Int (a + b) ->
  0 <= o -> 0 <= a -> 0 <= b ->
  exists p1 p2 p3,
    seedMoviesOf (fst (getMovies (mkListParams g s l1 o1) w)) = Some p1
    /\ seedMoviesOf (fst (getMovies (mkListParams g s l2 o2) w)) = Some p2
    /\ seedMoviesOf (fst (getMovies (mkListParams g s l3 o1) w)) = Some p3
    /\ (p1 ++ p2)%list = p3.
Proof.
  intros H Ho1 Hl1 Ho2 Hl2 Hl3 Po Pa Pb.
  rewrite !(getMovies_fallback _ w H).
  do 3 eexists. repeat (split; [reflexivity|]).
  unfold inMemoryPage, inMemoryFiltered.
  cbn [q_search q_genre q_limit q_offset].
  rewrite Ho1, Hl1, Ho2, Hl2, Hl3. simpl add.
  replace (o + (a + b)) with (o + a + b) by lia.
  now apply slice_append.
Qed.

Lemma list_pages_concatenate_witness :
  exists p1 p2 p3,
    seedMoviesOf
      (fst (getMovies (mkListParams None None (Some "2") (Some "1"))
              (startOffline S3_BUCKET_default))) = Some p1
    /\ seedMoviesOf
         (fst (getMovies (mkListParams None None (Some "3") (Some "3"))
                 (startOffline S3_BUCKET_default))) = Some p2
    /\ seedMoviesOf
         (fst (getMovies (mkListParams None None (Some "5") (Some "1"))
                 (startOffline S3_BUCKET_default))) = Some p3
    /\ (p1 ++ p2)%list = p3.
Proof.
  apply (list_pages_concatenate None None (Some "2") (Some "1")
           (Some "3") (Some "3") (Some "5")
           (startOffline S3_BUCKET_default) 1 2 3);
    try reflexivity; try discriminate.
  left. reflexivity.
Defined.

(** X6: in the in-memory branch a limit or an offset that [parseInt]
    cannot read gives an empty page with total 0 and a null page number,
    not an error and not the default. *)
Theorem list_unparsable_paging (q : ListParams) (w : World) :
  storeDown w \/ SQL.rows (table (store w)) = [] ->
  parsedOr 0 (q_offset q) = NaN \/ parsedOr 20 (q_limit q) = NaN ->
  fst (getMovies q w)
  = json (MoviesPage (SeedObjects []) 0 None
            (toJson (parsedOr 20 (q_limit q)))).
Proof.
  intros H E. rewrite (getMovies_fallback q w H). unfold inMemoryPage.
  assert (Eadd : add (parsedOr 0 (q_offset q)) (parsedOr 20 (q_limit q))
                 = NaN).
  { destruct E as [-> | ->]; [reflexivity|].
    now destruct (parsedOr 0 (q_offset q)). }
  assert (Ediv : floorDivPlus1 (parsedOr 0 (q_offset q))
                   (parsedOr 20 (q_limit q)) = None).
  { destruct E as [-> | ->]; [reflexivity|].
    now destruct (parsedOr 0 (q_offset q)). }
  rewrite Eadd, Ediv, slice_NaN_end. reflexivity.
Qed.

Lemma list_unparsable_paging_witness :
  fst (getMovies (mkListParams None None (Some "ten") None)
         (startOffline S3_BUCKET_default))
  = json (MoviesPage (SeedObjects []) 0 None None).
Proof.
  apply (list_unparsable_paging (mkListParams None None (Some "ten") None)
           (startOffline S3_BUCKET_default)).
  - left. reflexivity.
  - right. reflexivity.
Defined.

Lemma orderByRatingDesc_perm (t : list Row) :
  Permutation (SQL.orderByRatingDesc t) t.
Proof. apply sort_perm. Qed.

(** X7: when the first statement of [GET /api/movies] returns rows and the
    second, filtered one fails, the response carries every row of the
    table, whatever genre, search, limit and offset were asked for, and
    [total] is the size of the table. *)
Theorem list_second_query_failure (q : ListParams) (w : World) :
  storeUp w -> SQL.rows (table (store w)) <> [] ->
  down (store w) (S (calls (store w))) = true ->
  exists all page_no limit,
    fst (getMovies q w)
    = json (MoviesPage (StoreRows all)
              (length (SQL.rows (table (store w)))) page_no limit)
    /\ Permutation all (SQL.rows (table (store w))).
Proof.
  intros U Hne D. unfold getMovies.
  rewrite executeQuery_up by exact U. cbn [SQL.run].
  pose proof (orderByRatingDesc_perm (SQL.rows (table (store w)))) as P.
  destruct (SQL.orderByRatingDesc (SQL.rows (table (store w))))
    as [|r rs] eqn:E.
  - apply Permutation_nil in P. congruence.
  - rewrite executeQuery_down by exact D.
    do 3 eexists. split; [|exact P].
    cbn [fst itemsLength]. rewrite (Permutation_length P). reflexivity.
Qed.

Lemma list_second_query_failure_witness :
  exists all page_no limit,
    fst (getMovies (mkListParams (Some "comedy") None None None)
           dropsAfterFirst)
    = json (MoviesPage (StoreRows all) 1 page_no limit)
    /\ Permutation all [otherRow].
Proof.
  apply (list_second_query_failure
           (mkListParams (Some "comedy") None None None) dropsAfterFirst).
  - reflexivity.
  - discriminate.
  - reflexivity.
Defined.

(** *** GET /api/movies/:id and GET /api/recommendations/:movieId *)

Lemma existsb_filter_head {A : Type} (f : A -> bool) (l : list A) :
  existsb f l = true ->
  exists x rest, filter f l = x :: rest /\ In x l /\ f x = true.
Proof.
  intros H. destruct (filter f l) as [|x rest] eqn:E.
  - apply existsb_exists in H. destruct H as [y [Hy Hf]].
    assert (In y (filter f l)) by (apply filter_In; now split).
    rewrite E in H. contradiction.
  - exists x, rest. split; [reflexivity|].
    assert (Hx : In x (filter f l)) by (rewrite E; now left).
    now apply filter_In in Hx.
Qed.

Lemma getMovie_no_row (idParam : string) (w : World) :
  storeDown w \/ (storeUp w /\ holdsId w (parseInt idParam) = false) ->
  fst (getMovie idParam w) =
  match find (idIs (parseInt idParam)) (movies w) with
  | Some movie => json (SeedMovie movie)
  | None => mkResponse 404 (Error "Movie not found")
  end.
Proof.
  intros [D|[U Hno]]; unfold getMovie.
  - rewrite executeQuery_down by exact D. now destruct (find _ (movies w)).
  - rewrite executeQuery_up by exact U. cbn [SQL.run].
    rewrite (filter_nil_not_exists _ _ Hno).
    now destruct (find _ (movies w)).
Qed.

(** X8: when the store is reached and holds a row with the requested id,
    [GET /api/movies/:id] answers with a row of the table that has this
    id; the array [movies] is not looked at, even if it holds a movie with
    the same id. *)
Theorem getById_store_row_first (idParam : string) (w : World) :
  storeUp w -> holdsId w (parseInt idParam) = true ->
  exists r z,
    parseInt idParam = Int z
    /\ fst (getMovie idParam w) = json (StoreMovie r)
    /\ In r (SQL.rows (table (store w)))
    /\ r_id r = z.
Proof.
  intros U H. unfold holdsId in H.
  destruct (existsb_filter_head _ _ H) as [r [rest [E [Hin Hid]]]].
  unfold SQL.idEq in Hid.
  destruct (parseInt idParam) as [|z] eqn:P; [discriminate|].
  exists r, z. split; [reflexivity|].
  split; [|split; [exact Hin | now apply Z.eqb_eq]].
  unfold getMovie. rewrite P, executeQuery_up by exact U.
  cbn [SQL.run]. rewrite E. reflexivity.
Qed.

Lemma getById_store_row_first_witness :
  exists r z,
    parseInt "1" = Int z
    /\ fst (getMovie "1" sameIdAsSeed) = json (StoreMovie r)
    /\ In r (SQL.rows (table (store sameIdAsSeed)))
    /\ r_id r = z.
Proof.
  apply (getById_store_row_first "1" sameIdAsSeed); reflexivity.
Defined.

Lemma seed_ids (S3_BUCKET : string) (m : Movie) :
  In m (movies_literal S3_BUCKET) -> 1 <= id m <= 6.
Proof.
  intros H. simpl in H.
  repeat (destruct H as [<-|H]; [simpl; lia|]). contradiction.
Qed.

Lemma seed_has_id (S3_BUCKET : string) (z : Z) :
  1 <= z <= 6 ->
  exists m, In m (movies_literal S3_BUCKET) /\ id m = z.
Proof.
  intros H.
  assert (C : z = 1 \/ z = 2 \/ z = 3 \/ z = 4 \/ z = 5 \/ z = 6) by lia.
  assert (E : existsb (fun m => id m =? z) (movies_literal S3_BUCKET)
              = true)
    by (destruct C as [->|[->|[->|[->|[->| ->]]]]]; reflexivity).
  apply existsb_exists in E. destruct E as [m [Hin Hid]].
  exists m. split; [exact Hin | now apply Z.eqb_eq].
Qed.

(** X9: when the store gives no row and the array holds the six sample
    movies in any order, [GET /api/movies/:id] answers with the sample
    movie of that id for the ids 1 to 6, and with 404 for every other
    integer and for an id that [parseInt] cannot read. *)
Theorem getById_over_seed (S3_BUCKET idParam : string) (w : World) :
  seedState S3_BUCKET w ->
  storeDown w \/ (storeUp w /\ holdsId w (parseInt idParam) = false) ->
  (forall z, parseInt idParam = Int z -> 1 <= z <= 6 ->
     exists m, fst (getMovie idParam w) = json (SeedMovie m)
               /\ id m = z /\ In m (movies_literal S3_BUCKET))
  /\ (forall z, parseInt idParam = Int z -> ~ 1 <= z <= 6 ->
        fst (getMovie idParam w) = mkResponse 404 (Error "Movie not found"))
  /\ (parseInt idParam = NaN ->
      fst (getMovie idParam w) = mkResponse 404 (Error "Movie not found")).
Proof.
  intros Hs H. rewrite (getMovie_no_row idParam w H).
  split; [|split].
  - intros z P Hz. rewrite P.
    destruct (find (idIs (Int z)) (movies w)) as [m|] eqn:F.
    + apply find_some in F. destruct F as [Hin Hid].
      exists m. split; [reflexivity|].
      split; [now apply Z.eqb_eq|].
      eapply Permutation_in; eassumption.
    + exfalso. destruct (seed_has_id S3_BUCKET z Hz) as [m [Hin Hid]].
      assert (Hin' : In m (movies w))
        by (eapply Permutation_in; [apply Permutation_sym|]; eassumption).
      pose proof (find_none _ _ F m Hin') as N. simpl in N.
      apply Z.eqb_neq in N. contradiction.
  - intros z P Hz. rewrite P.
    destruct (find (idIs (Int z)) (movies w)) as [m|] eqn:F; [|reflexivity].
    exfalso. apply find_some in F. destruct F as [Hin Hid].
    simpl in Hid. apply Z.eqb_eq in Hid.
    apply (Permutation_in _ Hs) in Hin.
    apply seed_ids in Hin. lia.
  - intros ->.
    destruct (find (idIs NaN) (movies w)) as [m|] eqn:F; [|reflexivity].
    apply find_some in F. destruct F as [_ Hid]. discriminate.
Qed.

Lemma getById_over_seed_witness :
  (exists m, fst (getMovie "5" (startOffline S3_BUCKET_default))
             = json (SeedMovie m) /\ id m = 5)
  /\ fst (getMovie "7" (startOffline S3_BUCKET_default))
     = mkResponse 404 (Error "Movie not found")
  /\ fst (getMovie "trending" (startOffline S3_BUCKET_default))
     = mkResponse 404 (Error "Movie not found").
Proof.
  split; [|split].
  - destruct (proj1 (getById_over_seed S3_BUCKET_default "5"
                       (startOffline S3_BUCKET_default)
                       (Permutation_refl _) (or_introl eq_refl))
                5 eq_refl) as [m [H1 [H2 _]]]; [lia|].
    exists m. now split.
  - apply (proj1 (proj2 (getById_over_seed S3_BUCKET_default "7"
                           (startOffline S3_BUCKET_default)
                           (Permutation_refl _) (or_introl eq_refl)))
             7 eq_refl).
    lia.
  - apply (proj2 (proj2 (getById_over_seed S3_BUCKET_default "trending"
                           (startOffline S3_BUCKET_default)
                           (Permutation_refl _) (or_introl eq_refl)))).
    reflexivity.
Defined.

(** X10: when the store is reached and holds no row with the requested
    id, [GET /api/recommendations/:movieId] answers 404 and does not look
    at the array [movies], unlike [GET /api/movies/:id] in the same
    situation. *)
Theorem recommendations_store_miss (movieIdParam : string)
  (limitParam : option string) (w : World) :
  storeUp w -> holdsId w (parseInt movieIdParam) = false ->
  fst (getRecommendations movieIdParam limitParam w)
  = mkResponse 404 (Error "Movie not found").
Proof.
  intros U H. unfold getRecommendations.
  rewrite executeQuery_up by exact U. cbn [SQL.run].
  rewrite (filter_nil_not_exists _ _ H). reflexivity.
Qed.

Lemma recommendations_store_miss_witness :
  fst (getRecommendations "2" None storeWithoutId1)
  = mkResponse 404 (Error "Movie not found")
  /\ exists m, fst (getMovie "2" storeWithoutId1) = json (SeedMovie m).
Proof.
  split.
  - apply (recommendations_store_miss "2" None storeWithoutId1);
      reflexivity.
  - eexists. reflexivity.
Defined.

(** X11: when the lookup of the base movie succeeds in the store and the
    second statement fails, the recommendations are computed from the
    array: the base movie is the element of the array with the requested
    id (404 if there is none), its title and genre are reported, and the
    recommended movies are elements of the array of the same genre and a
    different id, in descending order of rating, at most [n] of them for a
    limit [n] >= 0. *)
Theorem recommendations_in_memory (movieIdParam : string)
  (limitParam : option string) (w : World) :
  storeUp w -> holdsId w (parseInt movieIdParam) = true ->
  down (store w) (S (calls (store w))) = true ->
  match find (idIs (parseInt movieIdParam)) (movies w) with
  | None =>
      fst (getRecommendations movieIdParam limitParam w)
      = mkResponse 404 (Error "Movie not found")
  | Some base =>
      exists recs,
        fst (getRecommendations movieIdParam limitParam w)
        = json (Recommendations (SeedObjects recs) (title base)
                  (Some (genre base)))
        /\ descendingByRating recs
        /\ (forall m, In m recs ->
              In m (movies w) /\ genre m = genre base /\ id m <> id base)
        /\ (forall n, parsedOrFalsy 4 limitParam = Int n -> 0 <= n ->
              (length recs <= Z.to_nat n)%nat)
  end.
Proof.
  intros U H D. unfold holdsId in H.
  destruct (existsb_filter_head _ _ H) as [r [rest [E [Hin Hid]]]].
  unfold getRecommendations.
  rewrite executeQuery_up by exact U. cbn [SQL.run]. rewrite E.
  rewrite executeQuery_down by exact D.
  destruct (find (idIs (parseInt movieIdParam)) (movies w)) as [base|] eqn:F;
    [|reflexivity].
  eexists. split; [reflexivity|].
  apply find_some in F. destruct F as [Hb Hbid].
  destruct (parseInt movieIdParam) as [|z] eqn:P; [discriminate|].
  simpl in Hbid. apply Z.eqb_eq in Hbid.
  set (cands := sort byRatingDesc _).
  destruct (slice_0_prefix cands (parsedOrFalsy 4 limitParam)) as [k Hk].
  split; [|split].
  - rewrite Hk. apply descending_firstn, sort_descending.
  - intros m Hm.
    apply (Subsequence_In _ _ (Subsequence_slice _ _ _)) in Hm.
    apply (Permutation_in _ (sort_perm _ _)) in Hm.
    apply filter_In in Hm. destruct Hm as [Hm1 Hm2].
    apply andb_true_iff in Hm2. destruct Hm2 as [Hg Hi].
    apply String.eqb_eq in Hg. apply negb_true_iff in Hi.
    simpl in Hi. apply Z.eqb_neq in Hi.
    split; [exact Hm1|]. split; [exact Hg | congruence].
  - intros n -> Hn. rewrite slice_from_0 by exact Hn.
    rewrite length_firstn. lia.
Qed.

Lemma recommendations_in_memory_witness :
  exists recs,
    fst (getRecommendations "2" None baseInStoreThenDown)
    = json (Recommendations (SeedObjects recs) "Shadow Protocol"
              (Some "action"))
    /\ descendingByRating recs
    /\ (forall m, In m recs ->
          In m (movies baseInStoreThenDown)
          /\ genre m = "action" /\ id m <> 2)
    /\ (forall n, parsedOrFalsy 4 None = Int n -> 0 <= n ->
          (length recs <= Z.to_nat n)%nat).
Proof.
  exact (recommendations_in_memory "2" None baseInStoreThenDown
           eq_refl eq_refl eq_refl).
Defined.

(** *** GET /api/genres *)

Lemma sort_length {A : Type} (le : A -> A -> bool) (l : list A) :
  length (sort le l) = length l.
Proof. apply Permutation_length, sort_perm. Qed.

Lemma sort_of_sorted {A : Type} (le : A -> A -> bool) (l : list A) :
  StronglySorted (holds le) l -> sort le l = l.
Proof.
  induction 1 as [|x l Hs IH F]; simpl; [reflexivity|].
  rewrite IH. destruct l as [|y l]; simpl; [reflexivity|].
  apply Forall_inv in F. unfold holds in F. now rewrite F.
Qed.

Lemma sort_idempotent (l : list Movie) :
  sort byRatingDesc (sort byRatingDesc l) = sort byRatingDesc l.
Proof.
  apply sort_of_sorted, sort_sorted;
    [apply byRatingDesc_total | apply byRatingDesc_trans].
Qed.

Lemma leb_neq_ltb (a b : string) :
  String.leb a b = true -> a <> b -> String.ltb a b = true.
Proof.
  unfold String.leb, String.ltb. intros H N.
  destruct (String.compare a b) eqn:C; try reflexivity; try discriminate.
  apply String.compare_eq_iff in C. contradiction.
Qed.

Lemma sorted_NoDup_strict (l : list string) :
  StronglySorted (holds defaultLe) l -> NoDup l ->
  StronglySorted (fun a b => String.ltb a b = true) l.
Proof.
  induction 1 as [|x l Hs IH F]; intros N; [constructor|].
  inversion N as [|? ? Hx Nl]; subst.
  constructor; [now apply IH|].
  rewrite Forall_forall in *. intros y Hy.
  apply leb_neq_ltb; [now apply F|]. intros ->. contradiction.
Qed.

(** X15: for any content of the array, the in-memory DistinctGenres
    answers with exactly the genres that occur in the array, each once, in
    strictly ascending order of code units. *)
Theorem genres_in_memory (w : World) :
  storeDown w ->
  exists gs,
    fst (getGenres w) = json (Genres (map Some gs))
    /\ (forall g, In g gs <-> exists m, In m (movies w) /\ genre m = g)
    /\ NoDup gs
    /\ StronglySorted (fun a b => String.ltb a b = true) gs.
Proof.
  intros D. unfold getGenres. rewrite executeQuery_down by exact D.
  eexists. split; [reflexivity|].
  pose proof (sort_perm defaultLe (setOf [] (map genre (movies w)))) as P.
  assert (N : NoDup (sort defaultLe (setOf [] (map genre (movies w))))).
  { eapply Permutation_NoDup; [apply Permutation_sym, P|].
    apply setOf_NoDup. }
  split; [|split; [exact N|]].
  - intros g. split.
    + intros Hg. apply (Permutation_in _ P) in Hg.
      apply setOf_In in Hg. destruct Hg as [Hg _].
      apply in_map_iff in Hg. destruct Hg as [m [E Hm]]. now exists m.
    + intros [m [Hm E]].
      apply (Permutation_in _ (Permutation_sym P)).
      apply setOf_In. split; [|tauto].
      apply in_map_iff. now exists m.
  - apply sorted_NoDup_strict; [|exact N].
    apply sort_sorted; [apply defaultLe_total | apply defaultLe_trans].
Qed.

Lemma genres_in_memory_witness :
  exists gs,
    fst (getGenres (startOffline S3_BUCKET_default))
    = json (Genres (map Some gs))
    /\ NoDup gs.
Proof.
  destruct (genres_in_memory (startOffline S3_BUCKET_default) eq_refl)
    as [gs [H1 [_ [H3 _]]]].
  exists gs. now split.
Defined.

(** X16: with the store reached and its table empty, [GET /api/genres]
    answers with an empty list and does not fall back to the array, while
    [GET /api/movies] on the same state answers from the array. *)
Theorem genres_empty_table (q : ListParams) (w : World) :
  storeUp w -> SQL.rows (table (store w)) = [] ->
  fst (getGenres w) = json (Genres [])
  /\ seedMoviesOf (fst (getMovies q w)) = Some (inMemoryPage q (movies w)).
Proof.
  intros U E. split.
  - unfold getGenres. rewrite executeQuery_up by exact U.
    cbn [SQL.run]. rewrite E. reflexivity.
  - rewrite (getMovies_fallback q w (or_intror E)). reflexivity.
Qed.

Lemma genres_empty_table_witness :
  fst (getGenres emptyButReachable) = json (Genres [])
  /\ seedMoviesOf
       (fst (getMovies (mkListParams None None None None)
               emptyButReachable))
     = Some (inMemoryPage (mkListParams None None None None)
               (movies emptyButReachable)).
Proof.
  apply (genres_empty_table (mkListParams None None None None)
           emptyButReachable); reflexivity.
Defined.

(** *** The store: reads, POST /api/movies and start-up *)

Lemma executeQuery_select {R : Type} (q : Query R) (s : Store) :
  isSelect q = true ->
  snd (executeQuery q s) = tick s.
Proof.
  intros H. unfold executeQuery, tick.
  destruct (down s (calls s)); [reflexivity|].
  destruct q; try discriminate; cbn [SQL.run];
    try reflexivity;
    match goal with
    | |- context [SQL.limitOffset ?a ?b ?l] =>
        destruct (SQL.limitOffset a b l); reflexivity
    end.
Qed.

Lemma executeQuery_insert_up (s : Store) (ti : string) (y : option Z)
  (g : string) (ra : option Q) (du de po tr : option string) :
  down s (calls s) = false ->
  executeQuery (InsertMovie ti y g ra du de po tr) s
  = (Some (mkHeader (SQL.auto_increment (table s))),
     mkStore
       (SQL.mkTable
          (SQL.rows (table s)
           ++ [mkRow (SQL.auto_increment (table s)) ti y (Some g) ra du de
                 po tr])
          (SQL.auto_increment (table s) + 1))
       (down s) (S (calls s))).
Proof. intros U. rewrite executeQuery_up by exact U. reflexivity. Qed.

Lemma read_request_table (r : Request) (w : World) :
  isRead r = true ->
  table (store (snd (handle r w))) = table (store w).
Proof.
  intros H. destruct r as [q|i|b|l|i l|]; try discriminate; simpl.
  - unfold getMovies.
    pose proof (executeQuery_select SelectAllByRating (store w) eq_refl)
      as E1.
    destruct (executeQuery SelectAllByRating (store w)) as [[[|r rs]|] s1];
      simpl in E1; subst s1; try reflexivity.
    match goal with
    | |- context [executeQuery ?q ?s] =>
        pose proof (executeQuery_select q s eq_refl) as E2;
        destruct (executeQuery q s) as [[f|] s2]
    end; simpl in E2; subst s2; reflexivity.
  - unfold getMovie.
    match goal with
    | |- context [executeQuery ?q ?s] =>
        pose proof (executeQuery_select q s eq_refl) as E1;
        destruct (executeQuery q s) as [[[|r rs]|] s1]
    end; simpl in E1; subst s1; try reflexivity;
      now destruct (find _ (movies w)).
  - unfold getMovie.
    match goal with
    | |- context [executeQuery ?q ?s] =>
        pose proof (executeQuery_select q s eq_refl) as E1;
        destruct (executeQuery q s) as [[[|r rs]|] s1]
    end; simpl in E1; subst s1; try reflexivity;
      now destruct (find _ (movies w)).
  - unfold getRecommendations.
    match goal with
    | |- context [executeQuery ?q ?s] =>
        pose proof (executeQuery_select q s eq_refl) as E1;
        destruct (executeQuery q s) as [[[|r rs]|] s1]
    end; simpl in E1; subst s1; try reflexivity.
    match goal with
    | |- context [executeQuery ?q ?s] =>
        pose proof (executeQuery_select q s eq_refl) as E2;
        destruct (executeQuery q s) as [[f|] s2]
    end; simpl in E2; subst s2; try reflexivity.
    now destruct (find _ (movies w)).
  - unfold getGenres.
    match goal with
    | |- context [executeQuery ?q ?s] =>
        pose proof (executeQuery_select q s eq_refl) as E1;
        destruct (executeQuery q s) as [[rows|] s1]
    end; simpl in E1; subst s1; reflexivity.
Qed.

(** X17: no read request writes to the store: after List, GetById,
    Trending, RecommendationsFor or DistinctGenres the table is the one
    before the request, whatever the answers of the store were. *)
Theorem reads_keep_table (r : Request) (w : World) :
  isRead r = true ->
  table (store (snd (handle r w))) = table (store w).
Proof.
  intros H. destruct r; try discriminate; now apply read_request_table.
Qed.

Lemma reads_keep_table_witness :
  table (store (snd (handle (Trending None) storeWithoutId1)))
  = table (store storeWithoutId1).
Proof.
  apply (reads_keep_table (Trending None) storeWithoutId1). reflexivity.
Defined.

Lemma tableOk_insert (t : SQL.Table) (r : Row) :
  tableOk t -> r_id r = SQL.auto_increment t ->
  tableOk (SQL.mkTable (SQL.rows t ++ [r]) (SQL.auto_increment t + 1)).
Proof.
  intros [N F] E. split; simpl.
  - rewrite map_app. simpl. apply NoDup_app; [exact N | | ].
    + repeat constructor. simpl. tauto.
    + intros x Hx [<-|[]]. rewrite Forall_forall in F.
      apply in_map_iff in Hx. destruct Hx as [r' [E' Hr']].
      apply F in Hr'. lia.
  - apply Forall_app. split.
    + eapply Forall_impl; [|exact F]. simpl. intros; lia.
    + repeat constructor. lia.
Qed.

Lemma postMovie_table (b : MovieBody) (w : World) :
  table (store (snd (postMovie b w))) = table (store w)
  \/ exists r,
       r_id r = SQL.auto_increment (table (store w))
       /\ table (store (snd (postMovie b w)))
          = SQL.mkTable (SQL.rows (table (store w)) ++ [r])
              (SQL.auto_increment (table (store w)) + 1).
Proof.
  unfold postMovie.
  destruct (b_title b) as [t|], (b_genre b) as [g|]; try (now left).
  destruct (truthy t && truthy g); [|now left].
  destruct (down (store w) (calls (store w))) eqn:D.
  - rewrite executeQuery_down by exact D. now left.
  - rewrite executeQuery_insert_up by exact D. right.
    eexists. split; [|reflexivity]. reflexivity.
Qed.

Lemma insertAll_rows (l : list Movie) :
  forall s,
    exists k,
      (k <= length l)%nat
      /\ table (insertAll l s)
         = SQL.mkTable
             (SQL.rows (table s)
              ++ firstn k (sampleRows (SQL.auto_increment (table s)) l))
             (SQL.auto_increment (table s) + Z.of_nat k)
      /\ (storeUpFor (length l) s -> k = length l).
Proof.
  induction l as [|m l IH]; intros s; simpl.
  - exists 0%nat. split; [lia|]. split; [|reflexivity].
    rewrite app_nil_r, Z.add_0_r. now destruct (table s).
  - destruct (down s (calls s)) eqn:D.
    + unfold insertSample. rewrite executeQuery_down by exact D.
      exists 0%nat. split; [lia|]. split.
      * simpl. rewrite app_nil_r, Z.add_0_r. now destruct (table s).
      * intros U. specialize (U 0%nat ltac:(lia)).
        rewrite Nat.add_0_r in U. congruence.
    + unfold insertSample. rewrite executeQuery_insert_up by exact D.
      match goal with
      | |- context [insertAll l ?s1] => destruct (IH s1) as [k [Hk [E Hf]]]
      end.
      exists (S k). split; [lia|]. split.
      * rewrite E. cbn [table SQL.rows SQL.auto_increment firstn].
        rewrite <- app_assoc. simpl. f_equal. lia.
      * intros U. f_equal. apply Hf. intros j Hj. simpl.
        specialize (U (S j) ltac:(lia)).
        now rewrite Nat.add_succ_r in U.
Qed.

Lemma sampleRows_ids (l : list Movie) :
  forall i r, In r (sampleRows i l) -> i <= r_id r < i + Z.of_nat (length l).
Proof.
  induction l as [|m l IH]; intros i r; simpl; [tauto|].
  intros [<-|H]; [simpl; lia|]. apply IH in H. lia.
Qed.

Lemma sampleRows_NoDup (l : list Movie) :
  forall i, NoDup (map r_id (sampleRows i l)).
Proof.
  induction l as [|m l IH]; intros i; simpl; constructor; [|apply IH].
  intros H. apply in_map_iff in H. destruct H as [r [E Hr]].
  apply sampleRows_ids in Hr. simpl in E. lia.
Qed.

Lemma firstn_sampleRows_ids (l : list Movie) :
  forall k i r,
    In r (firstn k (sampleRows i l)) -> i <= r_id r < i + Z.of_nat k.
Proof.
  induction l as [|m l IH]; intros k i r; simpl.
  - rewrite firstn_nil. intros [].
  - destruct k as [|k]; simpl; [intros []|].
    intros [<-|H]; [simpl; lia|].
    apply IH in H. lia.
Qed.

(** X18: the ids of the table stay distinct and below the
    [AUTO_INCREMENT] counter through every request and through
    [initDatabase], whatever the store answers. *)
Theorem tableOk_preserved (w : World) :
  tableOk (table (store w)) ->
  (forall r, tableOk (table (store (snd (handle r w)))))
  /\ tableOk (table (store (initDatabase w))).
Proof.
  intros Ok. split.
  - intros r. destruct (isRead r) eqn:Rd.
    + now rewrite read_request_table.
    + destruct r; try discriminate. simpl.
      destruct (postMovie_table b w) as [->|[r [Hr ->]]]; [exact Ok|].
      now apply tableOk_insert.
  - unfold initDatabase.
    destruct (down (store w) (calls (store w))); [exact Ok|].
    destruct (down (tick (store w)) (calls (tick (store w)))); [exact Ok|].
    cbn [table tick].
    destruct (Z.of_nat (length (SQL.rows (table (store w)))) =? 0);
      [|exact Ok].
    cbn [store].
    destruct (insertAll_rows (movies w) (tick (tick (store w))))
      as [k [_ [E _]]].
    rewrite E. cbn [table tick]. destruct Ok as [N F]. split; simpl.
    + rewrite map_app. apply NoDup_app; [exact N | | ].
      * pose proof (sampleRows_NoDup (movies w)
                      (SQL.auto_increment (table (store w)))) as N'.
        rewrite <- (firstn_skipn k (sampleRows _ _)), map_app in N'.
        now apply NoDup_app_remove_r in N'.
      * intros x Hx Hx'. rewrite Forall_forall in F.
        apply in_map_iff in Hx. destruct Hx as [r [<- Hr]].
        apply in_map_iff in Hx'. destruct Hx' as [r' [E' Hr']].
        apply F in Hr.
        apply (Subsequence_In _ _ (Subsequence_firstn _ _)) in Hr'.
        apply sampleRows_ids in Hr'. lia.
    + apply Forall_app. split.
      * eapply Forall_impl; [|exact F]. simpl. intros; lia.
      * rewrite Forall_forall. intros r Hr.
        apply firstn_sampleRows_ids in Hr. lia.
Qed.

Lemma tableOk_preserved_witness :
  tableOk (table (store storeWithoutId1))
  /\ tableOk (table (store (snd (handle (Create bodyComplete)
                                   storeWithoutId1))))
  /\ tableOk (table (store (initDatabase emptyButReachable))).
Proof.
  assert (Ok : tableOk (table (store storeWithoutId1))).
  { split; simpl; repeat constructor; simpl; try tauto; lia. }
  assert (Ok' : tableOk (table (store emptyButReachable))).
  { split; simpl; constructor. }
  split; [exact Ok|]. split.
  - apply (proj1 (tableOk_preserved storeWithoutId1 Ok)).
  - apply (proj2 (tableOk_preserved emptyButReachable Ok')).
Defined.

(** X19: a movie created with the store reached, from a body whose values
    fit the columns of the table, can be read back: Create answers 201 with
    the value of the [AUTO_INCREMENT] counter, and when the ids of the
    table are distinct and below the counter, GetById with that id answers
    with the new row, which carries the title and genre of the body; a
    year 0 or a rating 0 of the body is stored as NULL; the array [movies]
    is untouched. *)
Theorem create_then_getById (b : MovieBody) (idParam : string) (w : World) :
  fitsColumns b ->
  tableOk (table (store w)) ->
  present (b_title b) = true -> present (b_genre b) = true ->
  storeUp w -> down (store w) (S (calls (store w))) = false ->
  parseInt idParam = Int (SQL.auto_increment (table (store w))) ->
  exists r,
    fst (postMovie b w)
    = mkResponse 201 (Created "Movie added successfully"
                        (SQL.auto_increment (table (store w))))
    /\ fst (getMovie idParam (snd (postMovie b w))) = json (StoreMovie r)
    /\ r_id r = SQL.auto_increment (table (store w))
    /\ Some (r_title r) = b_title b
    /\ r_genre r = b_genre b
    /\ (b_year b = Some 0 -> r_year r = None)
    /\ (forall x, b_rating b = Some x -> (x == 0)%Q -> r_rating r = None)
    /\ movies (snd (postMovie b w)) = movies w.
Proof.
  intros _ [N F] Ht Hg U U2 P. unfold postMovie, present in *.
  destruct (b_title b) as [t|]; [|discriminate].
  destruct (b_genre b) as [g|]; [|discriminate].
  rewrite Ht, Hg. cbn [andb].
  rewrite executeQuery_insert_up by exact U. cbn [fst snd insertId].
  eexists. split; [reflexivity|].
  split.
  - unfold getMovie. rewrite P. cbn [store movies].
    rewrite executeQuery_up by exact U2.
    cbn [SQL.run table SQL.rows]. rewrite filter_app.
    assert (E : filter (fun r => SQL.idEq (r_id r)
                                   (Int (SQL.auto_increment (table (store w)))))
                  (SQL.rows (table (store w))) = []).
    { apply filter_nil_not_exists.
      destruct (existsb _ _) eqn:X; [|reflexivity].
      apply existsb_exists in X. destruct X as [r [Hr Hi]].
      rewrite Forall_forall in F. apply F in Hr.
      simpl in Hi. apply Z.eqb_eq in Hi. lia. }
    rewrite E. cbn [filter SQL.idEq r_id app].
    rewrite Z.eqb_refl. reflexivity.
  - cbn [r_id r_title r_genre r_year r_rating movies].
    repeat (split; [reflexivity|]).
    split; [intros ->; reflexivity|].
    split; [|reflexivity].
    intros x -> Hx. simpl.
    apply Qeq_bool_iff in Hx. now rewrite Hx.
Qed.

Lemma create_then_getById_witness :
  exists r,
    fst (postMovie bodyZeroRating storeWithoutId1)
    = mkResponse 201 (Created "Movie added successfully" 8)
    /\ fst (getMovie "8" (snd (postMovie bodyZeroRating storeWithoutId1)))
       = json (StoreMovie r)
    /\ r_title r = "Harbour Lights"
    /\ r_year r = None /\ r_rating r = None.
Proof.
  assert (Ok : tableOk (table (store storeWithoutId1))).
  { split; simpl; repeat constructor; simpl; try tauto; lia. }
  assert (Fit : fitsColumns bodyZeroRating).
  { unfold fitsColumns, fitsText, bodyZeroRating. cbn.
    repeat split; try discriminate;
      try (intros v [= <-]; cbn; lia);
      try (injection H as <-; lia).
    intros x [= <-]. exists 0. split; [lia | reflexivity]. }
  destruct (create_then_getById bodyZeroRating "8" storeWithoutId1 Fit Ok
              eq_refl eq_refl eq_refl eq_refl eq_refl)
    as [r [H1 [H2 [_ [H4 [_ [H6 [H7 _]]]]]]]].
  exists r. split; [exact H1|]. split; [exact H2|].
  split; [now injection H4|].
  split; [now apply H6|].
  apply (H7 0%Q); reflexivity.
Defined.

(** X20: [initDatabase] on a reached store with an empty table inserts
    one row per element of the array [movies], in the order of the array,
    with consecutive ids from the [AUTO_INCREMENT] counter and the title,
    year, genre, rating, duration, description and URLs of the element;
    the array is untouched. *)
Theorem init_seeds_empty_table (w : World) :
  storeUpFor (2 + length (movies w)) (store w) ->
  SQL.rows (table (store w)) = [] ->
  table (store (initDatabase w))
  = SQL.mkTable
      (sampleRows (SQL.auto_increment (table (store w))) (movies w))
      (SQL.auto_increment (table (store w))
       + Z.of_nat (length (movies w)))
  /\ movies (initDatabase w) = movies w.
Proof.
  intros U E. unfold initDatabase.
  assert (U0 : down (store w) (calls (store w)) = false).
  { specialize (U 0%nat ltac:(lia)). now rewrite Nat.add_0_r in U. }
  assert (U1 : down (store w) (S (calls (store w))) = false).
  { specialize (U 1%nat ltac:(lia)). now rewrite Nat.add_1_r in U. }
  rewrite U0. cbn [tick down calls table]. rewrite U1, E.
  cbn [length Z.of_nat Z.eqb store movies]. split; [|reflexivity].
  destruct (insertAll_rows (movies w) (tick (tick (store w))))
    as [k [_ [Ek Hk]]].
  rewrite Ek. cbn [tick table]. rewrite E. cbn [app].
  rewrite Hk.
  - rewrite firstn_all2; [reflexivity|].
    clear. generalize (SQL.auto_increment (table (store w))).
    induction (movies w) as [|m l IH]; intros i; simpl; [lia|].
    specialize (IH (i + 1)). lia.
  - intros j Hj. cbn [tick down calls].
    specialize (U (2 + j)%nat ltac:(lia)).
    now replace (S (S (calls (store w))) + j)%nat
      with (calls (store w) + (2 + j))%nat by lia.
Qed.

Lemma init_seeds_empty_table_witness :
  map r_id (SQL.rows (table (store (initDatabase emptyButReachable))))
  = [1; 2; 3; 4; 5; 6]
  /\ table (store (initDatabase emptyButReachable))
     = SQL.mkTable
         (sampleRows (SQL.auto_increment
                        (table (store emptyButReachable)))
            (movies emptyButReachable))
         (SQL.auto_increment (table (store emptyButReachable))
          + Z.of_nat (length (movies emptyButReachable))).
Proof.
  split; [reflexivity|].
  apply (init_seeds_empty_table emptyButReachable).
  - intros k _. reflexivity.
  - reflexivity.
Defined.

(** X21: [initDatabase] only ever appends sample rows: the table
    afterwards is the table before followed by the rows of the first [k]
    elements of the array, for some [k]; [k] is 0, so the table is
    unchanged, when the table was not empty (a table seeded in part is
    never completed) or when the store is not reached. *)
Theorem init_only_appends (w : World) :
  exists k,
    (k <= length (movies w))%nat
    /\ table (store (initDatabase w))
       = SQL.mkTable
           (SQL.rows (table (store w))
            ++ firstn k (sampleRows (SQL.auto_increment (table (store w)))
                           (movies w)))
           (SQL.auto_increment (table (store w)) + Z.of_nat k)
    /\ (SQL.rows (table (store w)) <> [] \/ storeDown w -> k = 0%nat).
Proof.
  assert (Same : forall t : SQL.Table,
            t = SQL.mkTable
                  (SQL.rows t
                   ++ firstn 0 (sampleRows (SQL.auto_increment t) (movies w)))
                  (SQL.auto_increment t + Z.of_nat 0)).
  { intros [rs a]. simpl. now rewrite app_nil_r, Z.add_0_r. }
  unfold initDatabase.
  destruct (down (store w) (calls (store w))) eqn:D0.
  { exists 0%nat. split; [lia|]. split; [apply Same | reflexivity]. }
  destruct (down (tick (store w)) (calls (tick (store w)))) eqn:D1.
  { exists 0%nat. split; [lia|]. split; [apply Same | reflexivity]. }
  cbn [tick table].
  destruct (SQL.rows (table (store w))) as [|r rs] eqn:E.
  - cbn [length Z.of_nat Z.eqb store].
    destruct (insertAll_rows (movies w) (tick (tick (store w))))
      as [k [Hk [Ek _]]].
    exists k. split; [exact Hk|]. split.
    + rewrite Ek. cbn [tick table]. now rewrite E.
    + intros [H|H]; [congruence|].
      unfold storeDown in H. congruence.
  - replace (Z.of_nat (length (r :: rs)) =? 0) with false
      by (symmetry; apply Z.eqb_neq; simpl length; lia).
    exists 0%nat. split; [lia|]. split; [|reflexivity].
    cbn [store tick table]. rewrite <- E. apply Same.
Qed.

Lemma init_only_appends_witness :
  table (store (initDatabase storeWithoutId1))
  = table (store storeWithoutId1).
Proof.
  destruct (init_only_appends storeWithoutId1) as [k [_ [E H]]].
  rewrite E. rewrite H; [reflexivity|].
  left. discriminate.
Defined.

Lemma insertAll_up (l : list Movie) :
  forall s,
    storeUpFor (length l) s ->
    insertAll l s
    = mkStore
        (SQL.mkTable
           (SQL.rows (table s)
            ++ sampleRows (SQL.auto_increment (table s)) l)
           (SQL.auto_increment (table s) + Z.of_nat (length l)))
        (down s) (calls s + length l).
Proof.
  induction l as [|m l IH]; intros s U.
  - simpl. rewrite app_nil_r, Z.add_0_r, Nat.add_0_r.
    now destruct s as [[rs a] d c].
  - assert (U0 : down s (calls s) = false).
    { specialize (U 0%nat ltac:(simpl; lia)). now rewrite Nat.add_0_r in U. }
    cbn [insertAll]. unfold insertSample.
    rewrite executeQuery_insert_up by exact U0.
    rewrite IH.
    + cbn [table SQL.rows SQL.auto_increment down calls sampleRows length].
      rewrite <- app_assoc. cbn [app]. f_equal; [f_equal|]; lia.
    + intros j Hj. cbn [down calls].
      specialize (U (S j) ltac:(simpl; lia)).
      now rewrite Nat.add_succ_r in U.
Qed.

(** X22: after [initDatabase] on a reached store whose table is empty and
    whose [AUTO_INCREMENT] counter is 1, the ids of the store coincide with
    those of the sample data: [GET /api/movies/:id] for an id from 1 to 6
    answers with the store row made from the sample movie of that id. *)
Theorem fresh_init_ids_match_seed
  (S3_BUCKET idParam : string) (s : Store) (z : Z) :
  SQL.rows (table s) = [] -> SQL.auto_increment (table s) = 1 ->
  storeUpFor 9 s -> parseInt idParam = Int z -> 1 <= z <= 6 ->
  exists m,
    In m (movies_literal S3_BUCKET) /\ id m = z
    /\ fst (getMovie idParam
              (initDatabase (mkWorld (movies_literal S3_BUCKET) s)))
       = json (StoreMovie (sampleRow z m)).
Proof.
  intros E A U P Hz.
  assert (U0 : down s (calls s) = false).
  { specialize (U 0%nat ltac:(lia)). now rewrite Nat.add_0_r in U. }
  assert (U1 : down s (S (calls s)) = false).
  { specialize (U 1%nat ltac:(lia)). now rewrite Nat.add_1_r in U. }
  assert (U8 : down s (S (S (calls s)) + 6) = false).
  { specialize (U 8%nat ltac:(lia)).
    now replace (S (S (calls s)) + 6)%nat with (calls s + 8)%nat by lia. }
  unfold initDatabase. cbn [store movies tick down calls table].
  rewrite U0, U1, E. cbn [length Z.of_nat Z.eqb].
  rewrite insertAll_up.
  - cbn [tick table down calls]. rewrite E, A.
    unfold getMovie. rewrite P. cbn [store movies].
    rewrite executeQuery_up by exact U8.
    assert (C : z = 1 \/ z = 2 \/ z = 3 \/ z = 4 \/ z = 5 \/ z = 6) by lia.
    destruct C as [->|[->|[->|[->|[->| ->]]]]];
      eexists; (split; [|split; [|reflexivity]]);
      [ left; reflexivity | reflexivity
      | right; left; reflexivity | reflexivity
      | do 2 right; left; reflexivity | reflexivity
      | do 3 right; left; reflexivity | reflexivity
      | do 4 right; left; reflexivity | reflexivity
      | do 5 right; left; reflexivity | reflexivity ].
  - intros j Hj. cbn [tick down calls].
    specialize (U (2 + j)%nat ltac:(simpl in Hj; lia)).
    now replace (S (S (calls s)) + j)%nat with (calls s + (2 + j))%nat
      by lia.
Qed.

Lemma fresh_init_ids_match_seed_witness :
  exists m,
    In m (movies_literal S3_BUCKET_default) /\ id m = 3
    /\ fst (getMovie "3" (initDatabase emptyButReachable))
       = json (StoreMovie (sampleRow 3 m)).
Proof.
  apply (fresh_init_ids_match_seed S3_BUCKET_default "3"
           (reachable emptyTable) 3); try reflexivity; try lia.
  intros k _. reflexivity.
Defined.

(** *** The key of an upload *)

Lemma numberToString_digits (n : N) :
  numberToString n = NilEmpty.string_of_uint (N.to_uint n).
Proof.
  unfold numberToString, NilZero.string_of_uint.
  destruct n as [|p]; [reflexivity|]. simpl.
  pose proof (DecimalPos.Unsigned.to_uint_nonnil p) as H.
  now destruct (Pos.to_uint p).
Qed.

Lemma digits_dash_inj (d1 : Decimal.uint) :
  forall d2 n1 n2,
    NilEmpty.string_of_uint d1 ++ String "-" n1
    = NilEmpty.string_of_uint d2 ++ String "-" n2 ->
    d1 = d2 /\ n1 = n2.
Proof.
  induction d1 as [|d1 IH|d1 IH|d1 IH|d1 IH|d1 IH|d1 IH|d1 IH|d1 IH|d1 IH
                   |d1 IH];
    intros [|d2|d2|d2|d2|d2|d2|d2|d2|d2|d2] n1 n2 H; simpl in H;
    try discriminate;
    try (injection H as H; apply IH in H; destruct H as [-> ->];
         now split).
  injection H as ->. now split.
Qed.

(** X23: the key under which an upload is stored determines both the
    timestamp and the original file name: two uploads get the same key
    only when they have the same name and the same millisecond. *)
Theorem uploadKey_injective (t1 t2 : N) (name1 name2 : string) :
  uploadKey t1 name1 = uploadKey t2 name2 -> t1 = t2 /\ name1 = name2.
Proof.
  unfold uploadKey. rewrite !numberToString_digits. intros H.
  simpl in H. injection H as H.
  apply digits_dash_inj in H. destruct H as [Hd ->].
  split; [|reflexivity].
  now apply DecimalN.Unsigned.to_uint_inj.
Qed.

Lemma uploadKey_injective_witness :
  uploadKey 1712345678901 "poster.jpg" = "movies/1712345678901-poster.jpg"
  /\ (1712345678901%N = 1712345678901%N /\ "poster.jpg" = "poster.jpg").
Proof.
  split; [reflexivity|].
  apply (uploadKey_injective 1712345678901 1712345678901
           "poster.jpg" "poster.jpg").
  reflexivity.
Defined.

(** *** Requests and the array [movies] *)

Lemma initDatabase_keeps_array (w : World) :
  movies (initDatabase w) = movies w.
Proof.
  unfold initDatabase.
  destruct (down (store w) (calls (store w))); [reflexivity|].
  destruct (down (tick (store w)) (calls (tick (store w)))); [reflexivity|].
  now destruct (Z.of_nat _ =? 0).
Qed.

Lemma find_idIs_NaN (l : list Movie) : find (idIs NaN) l = None.
Proof. induction l as [|m l IH]; simpl; [reflexivity | exact IH]. Qed.

Lemma filter_idEq_NaN (l : list Row) :
  filter (fun r => SQL.idEq (r_id r) NaN) l = [].
Proof. induction l as [|r l IH]; simpl; [reflexivity | exact IH]. Qed.

(** C4 (every read operation leaves the sample data unchanged, the same
    six records in the same order: reads have no side effect and the data
    are immutable after process start; only Create has effects): every
    request, Trending included, leaves the array [movies] exactly as it
    was, and a read request leaves the table of the store as it was too;
    so after [initDatabase] and any sequence of requests the array still
    is the array literal, ids 1 to 6 in this order. A Create request that
    reaches the store does change the table. *)
Theorem requests_leave_seed_unchanged
  (S3_BUCKET : string) (s : Store) (rs : list Request)
  (r : Request) (w : World) :
  movies (snd (handle r w)) = movies w
  /\ (isRead r = true ->
      table (store (snd (handle r w))) = table (store w))
  /\ movies (serveAll rs
               (initDatabase (mkWorld (movies_literal S3_BUCKET) s)))
     = movies_literal S3_BUCKET
  /\ map id (movies (serveAll rs
                       (initDatabase
                          (mkWorld (movies_literal S3_BUCKET) s))))
     = [1; 2; 3; 4; 5; 6]
  /\ table (store (snd (handle (Create bodyComplete) storeWithoutId1)))
     <> table (store storeWithoutId1).
Proof.
  split; [apply requests_keep_array|].
  split; [apply read_request_table|].
  assert (E : movies (serveAll rs
                        (initDatabase
                           (mkWorld (movies_literal S3_BUCKET) s)))
              = movies_literal S3_BUCKET).
  { rewrite serveAll_keeps_array. apply initDatabase_keeps_array. }
  split; [exact E|]. split; [rewrite E; reflexivity|].
  intros H. apply (f_equal (fun t => length (SQL.rows t))) in H.
  vm_compute in H. discriminate.
Qed.

Lemma requests_leave_seed_unchanged_witness :
  movies (snd (handle (Trending (Some "3"))
                 (startOffline S3_BUCKET_default)))
  = movies (startOffline S3_BUCKET_default)
  /\ table (store (snd (handle (Trending (Some "3"))
                          (startOffline S3_BUCKET_default))))
     = table (store (startOffline S3_BUCKET_default))
  /\ map id (movies (serveAll
                       [Trending None;
                        List_ (mkListParams None None None None);
                        GetById "1"; DistinctGenres]
                       (initDatabase
                          (mkWorld (movies_literal S3_BUCKET_default)
                             (unreachable emptyTable)))))
     = [1; 2; 3; 4; 5; 6].
Proof.
  destruct (requests_leave_seed_unchanged S3_BUCKET_default
              (unreachable emptyTable)
              [Trending None; List_ (mkListParams None None None None);
               GetById "1"; DistinctGenres]
              (Trending (Some "3")) (startOffline S3_BUCKET_default))
    as [H1 [H2 [_ [H4 _]]]].
  split; [exact H1|]. split; [exact (H2 eq_refl) | exact H4].
Defined.

(** C6 (Trending over the sample data returns the movies sorted descending
    by rating and truncated to limit; limit 3 gives Quantum Nexus, The
    Last Symphony, Digital Phantom): a Trending request is answered by the
    handler of [/api/movies/:id], registered first, with the id
    "trending", which [parseInt] cannot read: for every limit and every
    state of the store the answer is 404 "Movie not found" and no movie is
    returned; the array is not sorted either. *)
Theorem trending_request_not_found (limitParam : option string)
  (w : World) :
  fst (handle (Trending limitParam) w)
  = mkResponse 404 (Error "Movie not found")
  /\ seedMoviesOf (fst (handle (Trending limitParam) w)) = None
  /\ movies (snd (handle (Trending limitParam) w)) = movies w.
Proof.
  assert (E : fst (handle (Trending limitParam) w)
              = mkResponse 404 (Error "Movie not found")).
  { cbn [handle]. unfold getMovie.
    change (parseInt "trending") with NaN.
    destruct (down (store w) (calls (store w))) eqn:D.
    - rewrite executeQuery_down by exact D.
      now rewrite find_idIs_NaN.
    - rewrite executeQuery_up by exact D. cbn [SQL.run].
      rewrite filter_idEq_NaN. now rewrite find_idIs_NaN. }
  split; [exact E|]. split; [now rewrite E|].
  apply requests_keep_array.
Qed.
